(** * lvsfunc.misc: range splicing, dark-frame selection, bookmark distance

    A shallow embedding of [replace_ranges], [limit_dark] and
    [frames_since_bookmark] from [src/lvsfunc/misc.py], and the properties
    the specification states about them; then [load_bookmarks], [source]
    and [fix_cr_tint] of the same file, with [resampler] and
    [quick_resample] of [src/lvsfunc/util.py].

    - A clip ([vs.VideoNode]) is the list of its frames; frames are opaque.
    - Python integers are [Z]. Frame averages and thresholds are only
      compared, and Python compares [int] and finite [float] values
      exactly, so they are the rationals [Q] they denote; NaN and the
      infinities are outside the model.
    - Exceptions are the [Err] side of [outcome]. *)

From Stdlib Require Import List ZArith QArith Bool Lia Permutation.
From Stdlib Require String Ascii DecimalString.
Import ListNotations.

Set Implicit Arguments.

Local Open Scope Z_scope.

(** ** Exceptions *)

Inductive error : Type :=
| IndexError          (* a subscript outside the sequence *)
| ValueError          (* raised by [limit_dark] *)
| UnboundLocalError   (* a local read before any assignment *)
| EngineError.        (* the sequence type refuses the requested slice *)

Inductive outcome (A : Type) : Type :=
| Ok (a : A)
| Err (e : error).

Arguments Ok {A} a.
Arguments Err {A} e.

Definition bind {A B : Type} (m : outcome A) (k : A -> outcome B) : outcome B :=
  match m with
  | Ok a => k a
  | Err e => Err e
  end.

Notation "x <- m ;; k" := (bind m (fun x => k))
  (at level 61, m at next level, right associativity).

Definition is_ok {A : Type} (m : outcome A) : bool :=
  match m with Ok _ => true | Err _ => false end.

(** ** Clips and Python slicing *)

(** What the sequence type does with a slice that selects no element.
    A Python list or tuple returns the empty sequence; the video engine
    cannot represent a clip without frames and its [Trim] raises. *)
Inductive empty_policy : Type :=
| EmptyAllowed
| EmptyRefused.

Module Clip.
Section Clip.

Variable T : Type.
Variable policy : empty_policy.

Definition num_frames (c : list T) : Z := Z.of_nat (length c).

(** [slice.indices] for a step of 1: a negative bound counts from the
    end, then the bound is clamped to [0, len]. *)
Definition clamp_index (len i : Z) : Z :=
  if i <? 0 then (if i + len <? 0 then 0 else i + len)
  else if len <? i then len else i.

Definition slice_indices (len : Z) (start stop : option Z) : Z * Z :=
  (match start with None => 0 | Some i => clamp_index len i end,
   match stop with None => len | Some i => clamp_index len i end).

(** [c[start:stop]] *)
Definition getslice (c : list T) (start stop : option Z) : outcome (list T) :=
  let '(lo, hi) := slice_indices (num_frames c) start stop in
  if lo <? hi
  then Ok (firstn (Z.to_nat (hi - lo)) (skipn (Z.to_nat lo) c))
  else match policy with
       | EmptyAllowed => Ok []
       | EmptyRefused => Err EngineError
       end.

(** [a + b] on clips: the frames of [a] followed by those of [b]. *)
Definition splice (a b : list T) : list T := a ++ b.

(** A request for frame [n] of [c] inside the filter graph: a request
    past the last frame is answered with the last frame. *)
Definition get_frame (c : list T) (n : nat) : option T :=
  nth_error c (Nat.min n (length c - 1)).

End Clip.
End Clip.

(** ** replace_ranges *)

(** An element of [ranges]: an [int], or a [(start, end)] tuple. *)
Inductive range : Type :=
| Frame (r : Z)
| Span (start stop : Z).

Definition range_bounds (r : range) : Z * Z :=
  match r with
  | Span s e => (s, e)
  | Frame i => (i, i)
  end.

Section ReplaceRanges.

Variable T : Type.
Variable policy : empty_policy.

(** The body of [for r in ranges]: from the working clip [out] to the
    next one. *)
Definition replace_range (clip_b out : list T) (r : range)
  : outcome (list T) :=
  let '(start, end_) := range_bounds r in
  tmp <- Clip.getslice policy clip_b (Some start) (Some (end_ + 1)) ;;
  tmp <- (if negb (start =? 0)
          then (pre <- Clip.getslice policy out None (Some start) ;;
                Ok (Clip.splice pre tmp))
          else Ok tmp) ;;
  tmp <- (if end_ <? Clip.num_frames out - 1
          then (post <- Clip.getslice policy out (Some (end_ + 1)) None ;;
                Ok (Clip.splice tmp post))
          else Ok tmp) ;;
  Ok tmp.

Fixpoint for_ranges (clip_b : list T) (ranges : list range) (out : list T)
  : outcome (list T) :=
  match ranges with
  | [] => Ok out
  | r :: ranges' =>
      match replace_range clip_b out r with
      | Ok tmp => for_ranges clip_b ranges' tmp
      | Err e => Err e
      end
  end.

Definition replace_ranges (clip_a clip_b : list T) (ranges : list range)
  : outcome (list T) :=
  for_ranges clip_b ranges clip_a.

(** *** The sequential fold of the specification

    One step as section 4.1 words it: the extract of the replacement,
    the prefix of the working sequence when [start <> 0], its suffix
    when [end < len(working) - 1]. *)
Definition splice_step (replacement working : list T) (r : range)
  : outcome (list T) :=
  let '(start, end_) := range_bounds r in
  extract <- Clip.getslice policy replacement (Some start) (Some (end_ + 1)) ;;
  prefix <- (if start =? 0 then Ok []
             else Clip.getslice policy working (Some 0) (Some start)) ;;
  suffix <- (if end_ <? Z.of_nat (length working) - 1
             then Clip.getslice policy working (Some (end_ + 1)) None
             else Ok []) ;;
  Ok (prefix ++ extract ++ suffix).

Definition sequential_fold (base replacement : list T) (ranges : list range)
  : outcome (list T) :=
  fold_left (fun working r => w <- working ;; splice_step replacement w r)
            ranges (Ok base).

(** *** Index-wise view

    [overlay p out repl] takes index [i] from [repl] where [p i] holds
    and from [out] elsewhere. *)
Fixpoint overlay (p : nat -> bool) (out repl : list T) : list T :=
  match out, repl with
  | x :: out', y :: repl' =>
      (if p 0%nat then y else x) :: overlay (fun i => p (S i)) out' repl'
  | _, _ => out
  end.

End ReplaceRanges.

Definition in_range (r : range) (i : nat) : bool :=
  let '(start, end_) := range_bounds r in
  (start <=? Z.of_nat i) && (Z.of_nat i <=? end_).

Definition covered (ranges : list range) (i : nat) : bool :=
  existsb (fun r => in_range r i) ranges.

(** [0 <= start <= end <= len - 1] *)
Definition in_bounds (len : nat) (r : range) : Prop :=
  0 <= fst (range_bounds r) <= snd (range_bounds r)
  /\ snd (range_bounds r) <= Z.of_nat len - 1.

(** [0 <= start <= end] and [start <= len - 1]; the end may lie beyond
    the last frame. *)
Definition start_in_bounds (len : nat) (r : range) : Prop :=
  0 <= fst (range_bounds r) <= snd (range_bounds r)
  /\ fst (range_bounds r) <= Z.of_nat len - 1.

(** Two ranges that share no index. *)
Definition disjoint (r1 r2 : range) : Prop :=
  snd (range_bounds r1) < fst (range_bounds r2)
  \/ snd (range_bounds r2) < fst (range_bounds r1).

Definition base10 : list Z := [0; 1; 2; 3; 4; 5; 6; 7; 8; 9].
Definition repl10 : list Z :=
  [100; 101; 102; 103; 104; 105; 106; 107; 108; 109].

(** ** limit_dark *)

(** Python's [>] on numbers. *)
Definition Qgt_bool (x y : Q) : bool :=
  match (x ?= y)%Q with Gt => true | _ => false end.

(** [if x:] for an optional number: [None] and zero are false. The value
    is returned for the branch that goes on to use it. *)
Definition truthy (x : option Q) : option Q :=
  match x with
  | Some v => if Qeq_bool v 0 then None else Some v
  | None => None
  end.

Section LimitDark.

Variable T : Type.
(** [f.props.PlaneStatsAverage], the property [std.PlaneStats] attaches
    to a frame. *)
Variable PlaneStatsAverage : T -> Q.

Definition PlaneStats (clip : list T) : list T := clip.

(** [std.FrameEval(clip, eval, prop_src)]: frame [n] is computed when it
    is requested, as the answer to a request for frame [n] of the clip
    [eval] returns for [n] and frame [n] of [prop_src]. The clip has the
    length of [clip]. *)
Definition FrameEval (clip : list T) (eval : nat -> T -> list T)
  (prop_src : list T) : nat -> option T :=
  fun n =>
    if (n <? length clip)%nat
    then match Clip.get_frame prop_src n with
         | Some f => Clip.get_frame (eval n f) n
         | None => None
         end
    else None.

Definition _diff (n : nat) (f : T) (clip filtered : list T)
  (threshold : Q) (threshold_range : option Q) : list T :=
  match truthy threshold_range with
  | Some threshold_range =>
      if Qle_bool threshold_range (PlaneStatsAverage f)
         && Qle_bool (PlaneStatsAverage f) threshold
      then filtered else clip
  | None =>
      if Qgt_bool (PlaneStatsAverage f) threshold then clip else filtered
  end.

Definition limit_dark (clip filtered : list T) (threshold : Q)
  (threshold_range : option Q) : outcome (nat -> option T) :=
  if match truthy threshold_range with
     | Some threshold_range => Qgt_bool threshold_range threshold
     | None => false
     end
  then Err ValueError
  else
    let avg := PlaneStats clip in
    Ok (FrameEval clip
          (fun n f => _diff n f clip filtered threshold threshold_range)
          avg).

End LimitDark.

(** Which of the two clips a frame comes from, for the examples. *)
Inductive origin : Type := Primary | Secondary.

Definition metrics3 : list Q := [1 # 10; 1 # 2; 9 # 10]%Q.
Definition primary3 : list (origin * Q) :=
  map (fun m => (Primary, m)) metrics3.
Definition secondary3 : list (origin * Q) :=
  map (fun m => (Secondary, m)) metrics3.

(** The first [k] frames of a lazily evaluated clip. *)
Definition frames {T : Type} (k : nat) (c : nat -> option T)
  : list (option T) :=
  map c (seq 0 k).

(** ** frames_since_bookmark *)

(** The loop of [_frames_since_bookmark]: [rest] is what [enumerate] has
    still to yield, [i] the index of its head, and [result] the local
    variable, [None] as long as nothing was assigned to it. [break]
    returns at once. *)
Fixpoint bookmark_loop (n : Z) (bookmarks : list Z) (i : nat)
  (rest : list Z) (result : option Z) : outcome (option Z) :=
  match rest with
  | [] => Ok result
  | bookmark :: rest' =>
      let frames_since := n - bookmark in
      if (0 <=? frames_since) && (length bookmarks <=? i + 1)%nat
      then bookmark_loop n bookmarks (S i) rest' (Some frames_since)
      else if 0 <=? frames_since
      then match nth_error bookmarks (i + 1) with
           | None => Err IndexError
           | Some next =>
               if n - next <? 0
               then Ok (Some frames_since)
               else bookmark_loop n bookmarks (S i) rest' result
           end
      else bookmark_loop n bookmarks (S i) rest' result
  end.

(** The value [_frames_since_bookmark] hands to [text.Text]. *)
Definition _frames_since_bookmark (n : Z) (bookmarks : list Z) : outcome Z :=
  result <- bookmark_loop n bookmarks 0 bookmarks None ;;
  match result with
  | Some v => Ok v
  | None => Err UnboundLocalError
  end.

(** Non-decreasing lists. *)
Fixpoint ascending (l : list Z) : Prop :=
  match l with
  | [] => True
  | x :: l' => (forall y, In y l' -> x <= y) /\ ascending l'
  end.

(** ** load_bookmarks *)

Section LoadBookmarks.

Import String Ascii.

(** [text.split(", ")]: the pieces between the occurrences of the
    separator, found from the left; [cur] is the piece being read. *)
Fixpoint split_comma_space (cur text : string) : list string :=
  match text with
  | EmptyString => [cur]
  | String ","%char (String " "%char text') =>
      cur :: split_comma_space EmptyString text'
  | String c text' =>
      split_comma_space (cur ++ String c EmptyString)%string text'
  end.

(** Python's [int] on a string, a builtin: it returns the number or
    raises. *)
Variable int : string -> outcome Z.

(** [[int(i) for i in tokens]] *)
Fixpoint int_each (tokens : list string) : outcome (list Z) :=
  match tokens with
  | [] => Ok []
  | i :: tokens' =>
      v <- int i ;;
      vs <- int_each tokens' ;;
      Ok (v :: vs)
  end.

(** [load_bookmarks], from the text [f.read()] returns. *)
Definition load_bookmarks (text : string) : outcome (list Z) :=
  bookmarks <- int_each (split_comma_space EmptyString text) ;;
  match bookmarks with
  | [] => Err IndexError
  | first :: _ =>
      if negb (first =? 0) then Ok (0 :: bookmarks) else Ok bookmarks
  end.

(** The text of a bookmark file: the numbers as [show] prints them, with
    [", "] in between. *)
Fixpoint join_comma_space (parts : list string) : string :=
  match parts with
  | [] => EmptyString
  | [p] => p
  | p :: parts' => (p ++ ", " ++ join_comma_space parts')%string
  end.

Fixpoint has_comma (s : string) : bool :=
  match s with
  | EmptyString => false
  | String c s' => Ascii.eqb c ","%char || has_comma s'
  end.

End LoadBookmarks.

(** Decimal numerals, for the examples. *)
Definition decimal (z : Z) : String.string :=
  DecimalString.NilZero.string_of_int (Z.to_int z).

Definition int_decimal (s : String.string) : outcome Z :=
  match DecimalString.NilZero.int_of_string s with
  | Some d => Ok (Z.of_int d)
  | None => Err ValueError
  end.

(** ** source *)

(** The decoder [source] calls, with the file it hands to it. *)
Inductive decoder : Type :=
| LWLibavSource (file : String.string)
| MplsRead (file : String.string) (mpls_playlist mpls_angle : Z)
| D2VSource (file : String.string)
| DGSource (file : String.string)
| ImwriRead (file : String.string)
| FFMS2Source (file : String.string).

(** The exceptions of [source] itself. The import that can fail comes
    after the decoder call: [ModuleNotFoundError after] is raised once
    the decoder call [after] has returned. *)
Inductive source_error : Type :=
| SourceValueError
| ModuleNotFoundError (after : decoder).

(** What [source] returns: the clip of the decoder call [d] (or the
    exception of that call, if it raises), or that clip brought to the
    frame rate, size and format of [ref], and repeated
    [ref.num_frames - 1] times when [repeated] is set. *)
Inductive loaded (R : Type) : Type :=
| Decoded (d : decoder)
| Conformed (d : decoder) (ref : R) (repeated : bool).

Arguments Decoded {R} d.
Arguments Conformed {R} d ref repeated.

Section Source.

Import String Ascii.

Variable R : Type.
(** [vsutil.is_image] *)
Variable is_image : string -> bool.
(** Whether [from mvsfunc import GetMatrix] finds the module. *)
Variable mvsfunc_installed : bool.
(** [bool(ref)], the truth value [if ref:] tests: a clip is its length,
    and false when that is 0. *)
Variable truth : R -> bool.

Definition startswith (s prefix : string) : bool := String.prefix prefix s.

Definition endswith (s suffix : string) : bool :=
  (String.length suffix <=? String.length s)%nat
  && String.eqb (substring (String.length s - String.length suffix)
                           (String.length suffix) s) suffix.

(** [s[n::]] *)
Definition drop (n : nat) (s : string) : string :=
  substring n (String.length s - n) s.

(** The first statement of [source]: the file name without a leading
    ['file:///']. *)
Definition strip_file_scheme (file : string) : string :=
  if startswith file "file:///" then drop 8 file else file.

(** The [elif] chain after [force_lsmas]: the decoder called for the
    file, already stripped. *)
Definition source_decoder (file : string) (mpls : bool)
  (mpls_playlist mpls_angle : Z) : decoder :=
  if mpls then MplsRead file mpls_playlist mpls_angle
  else if endswith file ".d2v" then D2VSource file
  else if endswith file ".dgi" then DGSource file
  else if is_image file then ImwriRead file
  else if endswith file ".m2ts" then LWLibavSource file
  else FFMS2Source file.

Definition source (file : string) (ref : option R) (force_lsmas mpls : bool)
  (mpls_playlist mpls_angle : Z) : source_error + loaded R :=
  let file := strip_file_scheme file in
  if endswith file ".mpls" && negb mpls then inl SourceValueError
  else if endswith file ".vob" || endswith file ".ts" then inl SourceValueError
  else if force_lsmas then inr (Decoded (LWLibavSource file))
  else
    let clip := source_decoder file mpls mpls_playlist mpls_angle in
    match ref with
    | Some ref =>
        if truth ref
        then
          if mvsfunc_installed
          then inr (Conformed clip ref (is_image file))
          else inl (ModuleNotFoundError clip)
        else inr (Decoded clip)
    | None => inr (Decoded clip)
    end.

End Source.

(** ** util.resampler, util.quick_resample, fix_cr_tint *)

Inductive sample_type_t : Type := INTEGER | FLOAT.

Inductive dither_type_t : Type := error_diffusion | none.

Record video_format : Type := {
  color_family : Z;
  sample_type : sample_type_t;
  bits_per_sample : Z;
  subsampling_w : Z;
  subsampling_h : Z
}.

(** The expression ['x {value} +'] *)
Inductive expr : Type := x_plus (value : Z).

Section Resample.

(** The engine: clips with a format, and the calls the functions make,
    each of which may raise. *)
Variable node : Type.
Variable format : node -> video_format.
Variable register_format :
  Z -> sample_type_t -> Z -> Z -> Z -> outcome video_format.
Variable Point : node -> video_format -> dither_type_t -> outcome node.
Variable Expr : node -> expr -> outcome node.

Definition resampler (clip : node) (bitdepth : Z) : outcome node :=
  let clip_cf := color_family (format clip) in
  let dst_st := if bitdepth <? 32 then INTEGER else FLOAT in
  let src_sw := subsampling_w (format clip) in
  let src_sh := subsampling_h (format clip) in
  if bits_per_sample (format clip) =? bitdepth then Ok clip
  else
    let dither_type :=
      if bits_per_sample (format clip) <? bitdepth
      then error_diffusion else none in
    form <- register_format clip_cf dst_st bitdepth src_sw src_sh ;;
    Point clip form dither_type.

(** [try: ... except: ...]: any exception of the first attempt starts
    the second. *)
Definition quick_resample (clip : node) (function : node -> outcome node)
  : outcome node :=
  filtered <- match (down <- resampler clip 16 ;; function down) with
              | Ok filtered => Ok filtered
              | Err _ => down <- resampler clip 8 ;; function down
              end ;;
  resampler filtered (bits_per_sample (format clip)).

(** [vsutil.get_depth] *)
Definition get_depth (clip : node) : Z := bits_per_sample (format clip).

Definition fix_cr_tint (clip : node) (value : Z) : outcome node :=
  clip <- (if negb (get_depth clip =? 16) then resampler clip 16
           else Ok clip) ;;
  Expr clip (x_plus value).

End Resample.

(** An engine for the examples: a clip is its format, every call
    succeeds. *)
Definition register_any (cf : Z) (st : sample_type_t) (bits sw sh : Z)
  : outcome video_format :=
  Ok {| color_family := cf; sample_type := st; bits_per_sample := bits;
        subsampling_w := sw; subsampling_h := sh |}.

Definition point_any (clip form : video_format) (d : dither_type_t)
  : outcome video_format := Ok form.

Definition yuv420p8 : video_format :=
  {| color_family := 3000000; sample_type := INTEGER; bits_per_sample := 8;
     subsampling_w := 1; subsampling_h := 1 |}.

(** * Properties *)

(** ** Slices *)

Section SliceFacts.

Variable T : Type.
Variable policy : empty_policy.

Lemma clamp_index_inside (len i : Z) :
  0 <= i <= len -> Clip.clamp_index len i = i.
Proof.
  intros H. unfold Clip.clamp_index.
  destruct (Z.ltb_spec i 0); [lia|].
  destruct (Z.ltb_spec len i); lia.
Qed.

Lemma clamp_index_beyond (len i : Z) :
  0 <= len <= i -> Clip.clamp_index len i = len.
Proof.
  intros H. unfold Clip.clamp_index.
  destruct (Z.ltb_spec i 0); [lia|].
  destruct (Z.ltb_spec len i); lia.
Qed.

Lemma firstn_skipn_beyond (c : list T) (lo k : nat) :
  (length c <= lo + k)%nat -> firstn k (skipn lo c) = skipn lo c.
Proof.
  intros H. apply firstn_all2. rewrite length_skipn. lia.
Qed.

(** [c[lo:hi]] with [0 <= lo < hi] and [lo] inside the clip: the frames
    from [lo] up to [hi], or up to the end where [hi] lies beyond it. *)
Lemma getslice_between (c : list T) (lo hi : Z) :
  0 <= lo < hi -> lo < Z.of_nat (length c) ->
  Clip.getslice policy c (Some lo) (Some hi)
  = Ok (firstn (Z.to_nat (hi - lo)) (skipn (Z.to_nat lo) c)).
Proof.
  intros Hlo Hlen. unfold Clip.getslice, Clip.slice_indices, Clip.num_frames.
  rewrite (clamp_index_inside (i := lo)) by lia.
  destruct (Z_le_gt_dec hi (Z.of_nat (length c))) as [Hhi | Hhi].
  - rewrite clamp_index_inside by lia.
    destruct (Z.ltb_spec lo hi); [reflexivity | lia].
  - rewrite clamp_index_beyond by lia.
    destruct (Z.ltb_spec lo (Z.of_nat (length c))); [| lia].
    f_equal. rewrite !firstn_skipn_beyond by lia. reflexivity.
Qed.

(** [c[:stop]] with [stop > 0] on a clip that has frames. *)
Lemma getslice_prefix (c : list T) (stop : Z) :
  0 < stop -> c <> [] ->
  Clip.getslice policy c None (Some stop) = Ok (firstn (Z.to_nat stop) c).
Proof.
  intros Hs Hc.
  assert (0 < Z.of_nat (length c)) by (destruct c; [congruence | simpl; lia]).
  unfold Clip.getslice, Clip.slice_indices, Clip.num_frames.
  destruct (Z_le_gt_dec stop (Z.of_nat (length c))) as [Hhi | Hhi].
  - rewrite clamp_index_inside by lia.
    destruct (Z.ltb_spec 0 stop); [| lia].
    rewrite Z.sub_0_r. reflexivity.
  - rewrite clamp_index_beyond by lia.
    destruct (Z.ltb_spec 0 (Z.of_nat (length c))); [| lia].
    rewrite Z.sub_0_r. simpl skipn.
    rewrite !firstn_all2 by lia. reflexivity.
Qed.

(** [c[start:]] with [start] inside the clip. *)
Lemma getslice_suffix (c : list T) (start : Z) :
  0 <= start < Z.of_nat (length c) ->
  Clip.getslice policy c (Some start) None = Ok (skipn (Z.to_nat start) c).
Proof.
  intros Hs. unfold Clip.getslice, Clip.slice_indices, Clip.num_frames.
  rewrite clamp_index_inside by lia.
  destruct (Z.ltb_spec start (Z.of_nat (length c))); [| lia].
  f_equal. apply firstn_skipn_beyond. lia.
Qed.

(** [c[:stop]] and [c[0:stop]] are the same slice. *)
Lemma getslice_from_zero (c : list T) (stop : option Z) :
  Clip.getslice policy c (Some 0) stop = Clip.getslice policy c None stop.
Proof.
  unfold Clip.getslice, Clip.slice_indices, Clip.num_frames.
  rewrite clamp_index_inside by lia. reflexivity.
Qed.

(** A slice is never refused where empty clips are allowed, and no slice
    raises an [IndexError]. *)
Lemma getslice_allowed (c : list T) (start stop : option Z) :
  is_ok (Clip.getslice EmptyAllowed c start stop) = true.
Proof.
  unfold Clip.getslice.
  destruct (Clip.slice_indices _ _ _) as [lo hi].
  destruct (lo <? hi); reflexivity.
Qed.

Lemma getslice_error (c : list T) (start stop : option Z) (e : error) :
  Clip.getslice policy c start stop = Err e -> e = EngineError.
Proof.
  unfold Clip.getslice.
  destruct (Clip.slice_indices _ _ _) as [lo hi].
  destruct (lo <? hi); [discriminate |].
  destruct policy; [discriminate | congruence].
Qed.

End SliceFacts.

(** ** The index-wise view of one replacement *)

Section OverlayFacts.

Variable T : Type.

Lemma overlay_length (p : nat -> bool) (out repl : list T) :
  length (overlay p out repl) = length out.
Proof.
  revert p repl. induction out as [| x out IH]; intros p [| y repl];
    simpl; auto.
Qed.

Lemma overlay_ext (p q : nat -> bool) (out repl : list T) :
  (forall i, (i < length out)%nat -> p i = q i) ->
  overlay p out repl = overlay q out repl.
Proof.
  revert p q repl. induction out as [| x out IH]; intros p q [| y repl] H;
    simpl; auto.
  rewrite (H 0%nat) by (simpl; lia). f_equal.
  apply IH. intros i Hi. apply H. simpl. lia.
Qed.

Lemma overlay_none (p : nat -> bool) (out repl : list T) :
  (forall i, (i < length out)%nat -> p i = false) ->
  overlay p out repl = out.
Proof.
  revert p repl. induction out as [| x out IH]; intros p [| y repl] H;
    simpl; auto.
  rewrite (H 0%nat) by (simpl; lia). f_equal.
  apply IH. intros i Hi. apply H. simpl. lia.
Qed.

Lemma overlay_overlay (p q : nat -> bool) (out repl : list T) :
  overlay q (overlay p out repl) repl
  = overlay (fun i => p i || q i) out repl.
Proof.
  revert p q repl. induction out as [| x out IH]; intros p q [| y repl];
    simpl; auto.
  rewrite IH. f_equal. destruct (p 0%nat), (q 0%nat); reflexivity.
Qed.

Lemma overlay_nth (p : nat -> bool) (out repl : list T) (i : nat) :
  length out = length repl ->
  nth_error (overlay p out repl) i
  = if p i then nth_error repl i else nth_error out i.
Proof.
  revert p repl i. induction out as [| x out IH]; intros p [| y repl] i H;
    simpl in *; try discriminate.
  - destruct i, (p _); reflexivity.
  - destruct i as [| i]; simpl.
    + destruct (p 0%nat); reflexivity.
    + apply (IH (fun i => p (S i))). lia.
Qed.

(** Prefix of the working clip, extract of the replacement, suffix of
    the working clip: the overlay on the indices [s..e]. *)
Lemma patch_overlay (out repl : list T) (s e : nat) :
  length out = length repl -> (s <= e)%nat ->
  firstn s out ++ firstn (S e - s) (skipn s repl) ++ skipn (S e) out
  = overlay (fun i => (s <=? i)%nat && (i <=? e)%nat) out repl.
Proof.
  revert repl s e.
  induction out as [| x out IH]; intros [| y repl] s e Hlen Hse;
    try discriminate.
  - rewrite firstn_nil, !skipn_nil, firstn_nil. reflexivity.
  - simpl in Hlen. destruct s as [| s].
    + destruct e as [| e]; simpl.
      * f_equal. symmetry. apply overlay_none. reflexivity.
      * f_equal.
        rewrite (overlay_ext _ (fun i => (0 <=? i)%nat && (i <=? e)%nat))
          by reflexivity.
        rewrite <- (IH repl 0%nat e) by lia.
        rewrite Nat.sub_0_r. reflexivity.
    + destruct e as [| e]; [lia |].
      simpl. f_equal. apply IH; lia.
Qed.

End OverlayFacts.

(** ** replace_ranges *)

Section ReplaceRangesFacts.

Variable T : Type.
Variable policy : empty_policy.

Lemma in_range_bounds (r : range) (i : nat) :
  in_range r i
  = ((Z.to_nat (fst (range_bounds r)) <=? i)%nat
     && (i <=? Z.to_nat (snd (range_bounds r)))%nat
     && (0 <=? snd (range_bounds r)))
    || ((fst (range_bounds r) <? 0) && (Z.of_nat i <=? snd (range_bounds r))).
Proof.
  unfold in_range. destruct (range_bounds r) as [s e]. simpl.
  destruct (Z.leb_spec s (Z.of_nat i)), (Z.leb_spec (Z.of_nat i) e),
    (Nat.leb_spec (Z.to_nat s) i), (Nat.leb_spec i (Z.to_nat e)),
    (Z.leb_spec 0 e), (Z.ltb_spec s 0); simpl; try reflexivity; lia.
Qed.

(** One pass of the loop body on a range that starts inside the clip
    and does not end before it starts: the indices of the range are
    taken from the replacement, whether or not the end is inside. *)
Lemma replace_range_overlay (clip_b out : list T) (r : range) :
  length out = length clip_b ->
  start_in_bounds (length out) r ->
  replace_range policy clip_b out r = Ok (overlay (in_range r) out clip_b).
Proof.
  intros Hlen [Hse Hs].
  rewrite (overlay_ext (in_range r)
             (fun i => (Z.to_nat (fst (range_bounds r)) <=? i)%nat
                       && (i <=? Z.to_nat (snd (range_bounds r)))%nat)).
  2:{ intros i _. rewrite in_range_bounds.
      destruct (Z.leb_spec 0 (snd (range_bounds r))); [| lia].
      destruct (Z.ltb_spec (fst (range_bounds r)) 0); [lia |].
      rewrite andb_true_r, orb_false_r. reflexivity. }
  unfold replace_range.
  destruct (range_bounds r) as [s e]. simpl fst in *. simpl snd in *.
  rewrite <- patch_overlay by lia.
  rewrite getslice_between by lia. simpl bind.
  replace (Z.to_nat (e + 1 - s)) with (S (Z.to_nat e) - Z.to_nat s)%nat by lia.
  assert (Hne : out <> []) by (destruct out; [simpl in Hs; lia | discriminate]).
  assert (Hpre :
    (if negb (s =? 0)
     then pre <- Clip.getslice policy out None (Some s) ;;
          Ok (Clip.splice pre
                (firstn (S (Z.to_nat e) - Z.to_nat s)
                        (skipn (Z.to_nat s) clip_b)))
     else Ok (firstn (S (Z.to_nat e) - Z.to_nat s)
                     (skipn (Z.to_nat s) clip_b)))
    = Ok (firstn (Z.to_nat s) out
          ++ firstn (S (Z.to_nat e) - Z.to_nat s) (skipn (Z.to_nat s) clip_b))).
  { destruct (Z.eqb_spec s 0) as [-> | Hs0]; simpl negb; cbv iota.
    - reflexivity.
    - rewrite getslice_prefix by (auto; lia). reflexivity. }
  rewrite Hpre. simpl bind. clear Hpre.
  unfold Clip.num_frames.
  destruct (Z.ltb_spec e (Z.of_nat (length out) - 1)) as [He | He].
  - rewrite getslice_suffix by lia. simpl bind. unfold Clip.splice.
    rewrite <- app_assoc.
    replace (Z.to_nat (e + 1)) with (S (Z.to_nat e)) by lia. reflexivity.
  - simpl bind. rewrite (skipn_all2 out (n := S (Z.to_nat e))) by lia.
    rewrite app_nil_r. reflexivity.
Qed.

(** The whole loop on such ranges: every covered index comes from the
    replacement, every other index from the clip the loop started on. *)
Lemma for_ranges_overlay (clip_b : list T) (ranges : list range) :
  forall out : list T,
  length out = length clip_b ->
  Forall (start_in_bounds (length out)) ranges ->
  for_ranges policy clip_b ranges out
  = Ok (overlay (covered ranges) out clip_b).
Proof.
  induction ranges as [| r ranges IH]; intros out Hlen Hall; simpl.
  - rewrite overlay_none by reflexivity. reflexivity.
  - inversion Hall as [| r' rs' Hr Hrs]; subst.
    rewrite replace_range_overlay by assumption.
    rewrite IH.
    + rewrite overlay_overlay. reflexivity.
    + rewrite overlay_length. assumption.
    + rewrite overlay_length. assumption.
Qed.

Lemma in_bounds_start (len : nat) (r : range) :
  in_bounds len r -> start_in_bounds len r.
Proof. unfold in_bounds, start_in_bounds. lia. Qed.

(** The loop body and the step of the specification agree on every
    input, errors included. *)
Lemma replace_range_splice_step (clip_b out : list T) (r : range) :
  replace_range policy clip_b out r = splice_step policy clip_b out r.
Proof.
  unfold replace_range, splice_step, Clip.num_frames, Clip.splice.
  destruct (range_bounds r) as [s e].
  destruct (Clip.getslice policy clip_b (Some s) (Some (e + 1)))
    as [extract | err]; simpl bind; [| reflexivity].
  rewrite getslice_from_zero.
  destruct (s =? 0); simpl negb; cbv iota.
  - simpl bind.
    destruct (e <? Z.of_nat (length out) - 1); simpl bind.
    + destruct (Clip.getslice policy out (Some (e + 1)) None); reflexivity.
    + rewrite app_nil_r. reflexivity.
  - destruct (Clip.getslice policy out None (Some s)) as [pre | err];
      simpl bind; [| reflexivity].
    destruct (e <? Z.of_nat (length out) - 1); simpl bind.
    + destruct (Clip.getslice policy out (Some (e + 1)) None);
        simpl bind; [rewrite app_assoc |]; reflexivity.
    + rewrite app_nil_r. reflexivity.
Qed.

Lemma fold_splice_step_err (replacement : list T) (ranges : list range)
  (e : error) :
  fold_left (fun working r => w <- working ;; splice_step policy replacement w r)
            ranges (Err e) = Err e.
Proof. induction ranges as [| r ranges IH]; simpl; auto. Qed.

Lemma for_ranges_fold (clip_b : list T) (ranges : list range) :
  forall out : list T,
  for_ranges policy clip_b ranges out
  = fold_left (fun working r => w <- working ;; splice_step policy clip_b w r)
              ranges (Ok out).
Proof.
  induction ranges as [| r ranges IH]; intros out; simpl; [reflexivity |].
  rewrite replace_range_splice_step.
  destruct (splice_step policy clip_b out r) as [tmp | e].
  - apply IH.
  - symmetry. apply fold_splice_step_err.
Qed.

End ReplaceRangesFacts.

Section ReplaceRangesErrors.

Variable T : Type.

Lemma replace_range_error policy (clip_b out : list T) (r : range) (e : error) :
  replace_range policy clip_b out r = Err e -> e = EngineError.
Proof.
  unfold replace_range. destruct (range_bounds r) as [s en].
  destruct (Clip.getslice policy clip_b (Some s) (Some (en + 1)))
    as [tmp | e1] eqn:E1; simpl bind.
  2:{ intros H. injection H as <-. eapply getslice_error, E1. }
  destruct (negb (s =? 0)).
  - destruct (Clip.getslice policy out None (Some s)) as [pre | e2] eqn:E2;
      simpl bind.
    2:{ intros H. injection H as <-. eapply getslice_error, E2. }
    destruct (en <? Clip.num_frames out - 1); simpl bind; [| discriminate].
    destruct (Clip.getslice policy out (Some (en + 1)) None)
      as [post | e3] eqn:E3; simpl bind; [discriminate |].
    intros H. injection H as <-. eapply getslice_error, E3.
  - simpl bind.
    destruct (en <? Clip.num_frames out - 1); simpl bind; [| discriminate].
    destruct (Clip.getslice policy out (Some (en + 1)) None)
      as [post | e3] eqn:E3; simpl bind; [discriminate |].
    intros H. injection H as <-. eapply getslice_error, E3.
Qed.

Lemma for_ranges_error policy (clip_b : list T) (ranges : list range) :
  forall (out : list T) (e : error),
  for_ranges policy clip_b ranges out = Err e -> e = EngineError.
Proof.
  induction ranges as [| r ranges IH]; intros out e; simpl; [discriminate |].
  destruct (replace_range policy clip_b out r) as [tmp | e1] eqn:E1.
  - apply IH.
  - intros H. injection H as <-. eapply replace_range_error, E1.
Qed.

Lemma replace_range_allowed (clip_b out : list T) (r : range) :
  is_ok (replace_range EmptyAllowed clip_b out r) = true.
Proof.
  unfold replace_range. destruct (range_bounds r) as [s en].
  pose proof (getslice_allowed clip_b (Some s) (Some (en + 1))) as H1.
  pose proof (getslice_allowed out None (Some s)) as H2.
  pose proof (getslice_allowed out (Some (en + 1)) None) as H3.
  destruct (Clip.getslice EmptyAllowed clip_b (Some s) (Some (en + 1)));
    [| discriminate].
  destruct (Clip.getslice EmptyAllowed out None (Some s)); [| discriminate].
  destruct (Clip.getslice EmptyAllowed out (Some (en + 1)) None);
    [| discriminate].
  simpl bind.
  destruct (negb (s =? 0)), (en <? Clip.num_frames out - 1); reflexivity.
Qed.

Lemma for_ranges_allowed (clip_b : list T) (ranges : list range) :
  forall out : list T,
  is_ok (for_ranges EmptyAllowed clip_b ranges out) = true.
Proof.
  induction ranges as [| r ranges IH]; intros out; simpl; [reflexivity |].
  pose proof (replace_range_allowed clip_b out r) as H.
  destruct (replace_range EmptyAllowed clip_b out r); [apply IH | discriminate].
Qed.

(** A range that ends before it starts, both ends inside the clip, is
    refused by an engine that has no empty clips. *)
Lemma replace_range_reversed (clip_b out : list T) (r : range) :
  0 <= snd (range_bounds r) < fst (range_bounds r) ->
  fst (range_bounds r) <= Z.of_nat (length clip_b) - 1 ->
  replace_range EmptyRefused clip_b out r = Err EngineError.
Proof.
  intros Hes Hs. unfold replace_range.
  destruct (range_bounds r) as [s en]. simpl fst in *. simpl snd in *.
  unfold Clip.getslice, Clip.slice_indices, Clip.num_frames.
  rewrite !clamp_index_inside by lia.
  destruct (Z.ltb_spec s (en + 1)); [lia | reflexivity].
Qed.

(** A range that starts beyond the last frame of the replacement asks
    for a slice that selects nothing. *)
Lemma replace_range_start_beyond (clip_b out : list T) (r : range) :
  Z.of_nat (length clip_b) - 1 < fst (range_bounds r) ->
  replace_range EmptyRefused clip_b out r = Err EngineError.
Proof.
  intros Hs. unfold replace_range.
  destruct (range_bounds r) as [s en]. simpl fst in *.
  unfold Clip.getslice, Clip.slice_indices, Clip.num_frames.
  rewrite (@clamp_index_beyond (Z.of_nat (length clip_b)) s) by lia.
  assert (Hhi : Clip.clamp_index (Z.of_nat (length clip_b)) (en + 1)
                <= Z.of_nat (length clip_b)).
  { unfold Clip.clamp_index.
    destruct (Z.ltb_spec (en + 1) 0).
    - destruct (Z.ltb_spec (en + 1 + Z.of_nat (length clip_b)) 0); lia.
    - destruct (Z.ltb_spec (Z.of_nat (length clip_b)) (en + 1)); lia. }
  destruct (Z.ltb_spec (Z.of_nat (length clip_b))
              (Clip.clamp_index (Z.of_nat (length clip_b)) (en + 1)));
    [lia | reflexivity].
Qed.

Lemma for_ranges_app policy (clip_b : list T) (before after : list range) :
  forall out : list T,
  for_ranges policy clip_b (before ++ after) out
  = (mid <- for_ranges policy clip_b before out ;;
     for_ranges policy clip_b after mid).
Proof.
  induction before as [| r before IH]; intros out; simpl; [reflexivity |].
  destruct (replace_range policy clip_b out r); [apply IH | reflexivity].
Qed.

End ReplaceRangesErrors.

Lemma covered_permutation (ranges1 ranges2 : list range) (i : nat) :
  Permutation ranges1 ranges2 -> covered ranges1 i = covered ranges2 i.
Proof.
  unfold covered. induction 1 as [| r l l' _ IH | r1 r2 l | l l' l'' _ IH1 _ IH2];
    simpl.
  - reflexivity.
  - rewrite IH. reflexivity.
  - rewrite !orb_assoc, (orb_comm (in_range r2 i)). reflexivity.
  - congruence.
Qed.

(** C1. [replace_ranges] is the sequential fold of the specification:
    the ranges are taken in the order given, starting from the base clip,
    and each one yields the extract of the replacement with the prefix of
    the current working clip in front when [start <> 0] and its suffix
    behind when [end < len(working) - 1]. On base [0..9], replacement
    [100..109] and ranges [(0,5), (3,8)] the result is
    [100, 101, ..., 108, 9]. *)
Theorem replace_ranges_sequential_fold :
  (forall (T : Type) (policy : empty_policy) (base replacement : list T)
          (ranges : list range),
      replace_ranges policy base replacement ranges
      = sequential_fold policy base replacement ranges)
  /\ (forall policy : empty_policy,
        replace_ranges policy base10 repl10 [Span 0 5; Span 3 8]
        = Ok [100; 101; 102; 103; 104; 105; 106; 107; 108; 9]).
Proof.
  split.
  - intros. apply for_ranges_fold.
  - intros []; reflexivity.
Qed.

(** C2. On clips of equal length, two lists of in-bounds, pairwise
    non-overlapping ranges that are permutations of each other give the
    same output. *)
Theorem replace_ranges_order_independent (T : Type) (policy : empty_policy)
  (base replacement : list T) (ranges1 ranges2 : list range) :
  length base = length replacement ->
  Permutation ranges1 ranges2 ->
  Forall (in_bounds (length base)) ranges1 ->
  ForallOrdPairs disjoint ranges1 ->
  exists out : list T,
    replace_ranges policy base replacement ranges1 = Ok out
    /\ replace_ranges policy base replacement ranges2 = Ok out.
Proof.
  intros Hlen Hperm Hin _.
  assert (Hin2 : Forall (in_bounds (length base)) ranges2)
    by (eapply Permutation_Forall; eassumption).
  exists (overlay (covered ranges1) base replacement).
  unfold replace_ranges. split.
  - apply for_ranges_overlay; [assumption |].
    eapply Forall_impl; [| exact Hin]. apply in_bounds_start.
  - rewrite for_ranges_overlay; [| assumption |].
    + f_equal. apply overlay_ext. intros i _.
      symmetry. apply covered_permutation, Hperm.
    + eapply Forall_impl; [| exact Hin2]. apply in_bounds_start.
Qed.

Lemma replace_ranges_order_independent_witness :
  exists out : list Z,
    replace_ranges EmptyRefused base10 repl10 [Span 0 2; Frame 5; Span 7 8]
    = Ok out
    /\ replace_ranges EmptyRefused base10 repl10 [Frame 5; Span 7 8; Span 0 2]
       = Ok out.
Proof.
  apply replace_ranges_order_independent.
  - reflexivity.
  - apply (Permutation_cons_app [Frame 5; Span 7 8] [] (Span 0 2)).
    apply Permutation_refl.
  - repeat constructor; simpl; lia.
  - repeat constructor; unfold disjoint; simpl; lia.
Defined.

(** C3. On clips of equal length and ranges that all satisfy
    [0 <= start <= end <= len(base) - 1], the output has the length of
    the base clip. *)
Theorem replace_ranges_length (T : Type) (policy : empty_policy)
  (base replacement : list T) (ranges : list range) :
  length base = length replacement ->
  Forall (in_bounds (length base)) ranges ->
  exists out : list T,
    replace_ranges policy base replacement ranges = Ok out
    /\ length out = length base.
Proof.
  intros Hlen Hin. eexists. split.
  - apply for_ranges_overlay; [assumption |].
    eapply Forall_impl; [| exact Hin]. apply in_bounds_start.
  - apply overlay_length.
Qed.

Lemma replace_ranges_length_witness :
  exists out : list Z,
    replace_ranges EmptyRefused base10 repl10 [Span 0 5; Span 3 8; Frame 9]
    = Ok out
    /\ length out = length base10.
Proof.
  apply replace_ranges_length.
  - reflexivity.
  - repeat constructor; simpl; lia.
Defined.

(** C4, as stated, fails: the range [(1, 15)] ends outside [0, 9], and
    no error is raised; the end is clamped by the slice. *)
Lemma replace_ranges_end_beyond_clip_no_error :
  ~ in_bounds (length base10) (Span 1 15)
  /\ replace_ranges EmptyRefused base10 repl10 [Span 1 15]
     = Ok [0; 101; 102; 103; 104; 105; 106; 107; 108; 109]
  /\ replace_ranges EmptyAllowed base10 repl10 [Span 1 15]
     = Ok [0; 101; 102; 103; 104; 105; 106; 107; 108; 109].
Proof.
  split; [| split; reflexivity].
  unfold in_bounds. simpl. lia.
Qed.

(** C4, amended. [replace_ranges] checks no range itself and never raises
    an [IndexError]: the one error it can end in is the sequence type
    refusing an empty slice. Where empty slices are allowed no list of
    ranges fails. On clips of equal length, a range with
    [0 <= start <= end] and [start <= len(base) - 1] does not fail even
    when [end] lies beyond the last index: the output exists and has the
    length of the base. On clips of equal length, an engine that refuses
    empty clips fails on a range with [start > len(base) - 1], and on a
    range with [start > end], both within [0, len(base) - 1]: the
    in-bounds ranges before it are applied, the error is raised when
    that range is processed, whatever follows it. *)
Theorem replace_ranges_failures :
  (forall (T : Type) (policy : empty_policy) (base replacement : list T)
          (ranges : list range) (e : error),
      replace_ranges policy base replacement ranges = Err e ->
      e = EngineError)
  /\ (forall (T : Type) (base replacement : list T) (ranges : list range),
        is_ok (replace_ranges EmptyAllowed base replacement ranges) = true)
  /\ (forall (T : Type) (policy : empty_policy) (base replacement : list T)
             (ranges : list range),
        length base = length replacement ->
        Forall (start_in_bounds (length base)) ranges ->
        exists out : list T,
          replace_ranges policy base replacement ranges = Ok out
          /\ length out = length base)
  /\ (forall (T : Type) (base replacement : list T)
             (before after : list range) (r : range),
        length base = length replacement ->
        Forall (in_bounds (length base)) before ->
        Z.of_nat (length base) - 1 < fst (range_bounds r)
        \/ (0 <= snd (range_bounds r) < fst (range_bounds r)
            /\ fst (range_bounds r) <= Z.of_nat (length base) - 1) ->
        exists working : list T,
          replace_ranges EmptyRefused base replacement before = Ok working
          /\ replace_range EmptyRefused replacement working r
             = Err EngineError
          /\ replace_ranges EmptyRefused base replacement
               (before ++ r :: after)
             = Err EngineError).
Proof.
  split; [| split; [| split]].
  - intros T policy base replacement ranges e. apply for_ranges_error.
  - intros T base replacement ranges. apply for_ranges_allowed.
  - intros T policy base replacement ranges Hlen Hin. eexists. split.
    + apply for_ranges_overlay; assumption.
    + apply overlay_length.
  - intros T base replacement before after r Hlen Hin Hr.
    exists (overlay (covered before) base replacement).
    assert (Hbefore :
      for_ranges EmptyRefused replacement before base
      = Ok (overlay (covered before) base replacement)).
    { apply for_ranges_overlay; [assumption |].
      eapply Forall_impl; [| exact Hin]. apply in_bounds_start. }
    assert (Hfail :
      replace_range EmptyRefused replacement
        (overlay (covered before) base replacement) r
      = Err EngineError).
    { destruct Hr as [Hbeyond | [Hes Hs]].
      - apply replace_range_start_beyond. lia.
      - apply replace_range_reversed; [assumption | lia]. }
    unfold replace_ranges. split; [exact Hbefore |]. split; [exact Hfail |].
    rewrite for_ranges_app, Hbefore. simpl. rewrite Hfail. reflexivity.
Qed.

Lemma replace_ranges_failures_witness :
  (exists out : list Z,
      replace_ranges EmptyRefused base10 repl10 [Span 1 15; Frame 9] = Ok out
      /\ length out = length base10)
  /\ (exists working : list Z,
        replace_ranges EmptyRefused base10 repl10 [Span 0 5] = Ok working
        /\ replace_range EmptyRefused repl10 working (Span 5 3)
           = Err EngineError
        /\ replace_ranges EmptyRefused base10 repl10
             ([Span 0 5] ++ Span 5 3 :: [Frame 2])
           = Err EngineError)
  /\ (exists working : list Z,
        replace_ranges EmptyRefused base10 repl10 [Span 0 5] = Ok working
        /\ replace_range EmptyRefused repl10 working (Frame 10)
           = Err EngineError
        /\ replace_ranges EmptyRefused base10 repl10
             ([Span 0 5] ++ Frame 10 :: [Frame 2])
           = Err EngineError).
Proof.
  destruct replace_ranges_failures as (_ & _ & Hclamped & Hfails).
  split; [| split].
  - apply Hclamped.
    + reflexivity.
    + repeat constructor; simpl; lia.
  - apply Hfails.
    + reflexivity.
    + repeat constructor; simpl; lia.
    + right. simpl. lia.
  - apply Hfails.
    + reflexivity.
    + repeat constructor; simpl; lia.
    + left. simpl. lia.
Defined.

(** ** limit_dark *)

Lemma Qgt_bool_iff (x y : Q) : Qgt_bool x y = true <-> (y < x)%Q.
Proof.
  unfold Qgt_bool. rewrite (Qgt_alt x y).
  destruct (x ?= y)%Q; split; congruence.
Qed.

Lemma truthy_nonzero (v : Q) : ~ (v == 0)%Q -> truthy (Some v) = Some v.
Proof.
  intros H. simpl. destruct (Qeq_bool v 0) eqn:E; [| reflexivity].
  apply Qeq_bool_iff in E. contradiction.
Qed.

Lemma truthy_zero (v : Q) : (v == 0)%Q -> truthy (Some v) = None.
Proof.
  intros H. simpl. apply Qeq_bool_iff in H. rewrite H. reflexivity.
Qed.

Lemma truthy_some (x : option Q) (v : Q) :
  truthy x = Some v <-> x = Some v /\ ~ (v == 0)%Q.
Proof.
  destruct x as [w |]; simpl.
  - destruct (Qeq_bool w 0) eqn:E; split.
    + discriminate.
    + intros [[= ->] Hv]. apply Qeq_bool_iff in E. contradiction.
    + intros [= ->]. split; [reflexivity |].
      intros Hv. apply Qeq_bool_iff in Hv. congruence.
    + intros [H _]. exact H.
  - split; [discriminate | intros [[=] _]].
Qed.

Section LimitDarkFacts.

Variable T : Type.
Variable PlaneStatsAverage : T -> Q.

Lemma get_frame_inside (c : list T) (n : nat) :
  (n < length c)%nat -> Clip.get_frame c n = nth_error c n.
Proof. intros H. unfold Clip.get_frame. rewrite Nat.min_l by lia. reflexivity. Qed.

Lemma get_frame_beyond (c : list T) (n : nat) :
  (length c <= n)%nat -> Clip.get_frame c n = nth_error c (length c - 1).
Proof. intros H. unfold Clip.get_frame. rewrite Nat.min_r by lia. reflexivity. Qed.

(** What a frame request on the clip [limit_dark] returns does: the
    decision of [_diff] for that frame, then a request for frame [n] of
    the chosen clip. *)
Lemma limit_dark_frame (clip filtered : list T) (threshold : Q)
  (threshold_range : option Q) (out : nat -> option T) (n : nat) (f : T) :
  limit_dark PlaneStatsAverage clip filtered threshold threshold_range
  = Ok out ->
  nth_error clip n = Some f ->
  out n
  = Clip.get_frame
      (_diff PlaneStatsAverage n f clip filtered threshold threshold_range) n.
Proof.
  unfold limit_dark. intros H Hf.
  destruct (match truthy threshold_range with
            | Some tr => Qgt_bool tr threshold
            | None => false
            end); [discriminate |].
  injection H as <-.
  unfold FrameEval, PlaneStats.
  assert (Hn : (n < length clip)%nat)
    by (apply nth_error_Some; congruence).
  rewrite (get_frame_inside clip Hn), Hf.
  apply Nat.ltb_lt in Hn. rewrite Hn. reflexivity.
Qed.

Lemma nth_error_get_frame (clip : list T) (n : nat) (f : T) :
  nth_error clip n = Some f -> Clip.get_frame clip n = nth_error clip n.
Proof.
  intros Hf. apply get_frame_inside. apply nth_error_Some. congruence.
Qed.

Lemma limit_dark_absent (clip filtered : list T) (threshold : Q)
  (threshold_range : option Q) :
  truthy threshold_range = None ->
  exists out : nat -> option T,
    limit_dark PlaneStatsAverage clip filtered threshold threshold_range
    = Ok out
    /\ forall (n : nat) (f : T),
         nth_error clip n = Some f ->
         ((threshold < PlaneStatsAverage f)%Q -> out n = nth_error clip n)
         /\ (~ (threshold < PlaneStatsAverage f)%Q ->
             (n < length filtered)%nat ->
             out n = nth_error filtered n).
Proof.
  intros Htr.
  assert (Hok : exists out,
             limit_dark PlaneStatsAverage clip filtered threshold
               threshold_range = Ok out)
    by (unfold limit_dark; rewrite Htr; eexists; reflexivity).
  destruct Hok as [out Hout]. exists out. split; [exact Hout |].
  intros n f Hf. rewrite (@limit_dark_frame clip filtered threshold threshold_range out n f
             Hout Hf).
  unfold _diff. rewrite Htr.
  destruct (Qgt_bool (PlaneStatsAverage f) threshold) eqn:E.
  - apply Qgt_bool_iff in E.
    split; [intros _; eapply nth_error_get_frame, Hf | contradiction].
  - split; [| intros _ Hn; apply get_frame_inside, Hn].
    intros H. apply Qgt_bool_iff in H. congruence.
Qed.

End LimitDarkFacts.

(** C5, as stated, fails: with no [threshold_range] and threshold 0.25,
    the frame whose average is 0.5 is above the threshold and the frame
    delivered is the primary one, not the filtered one. *)
Lemma limit_dark_above_threshold_is_primary :
  exists out : nat -> option (origin * Q),
    limit_dark snd primary3 secondary3 (1 # 4) None = Ok out
    /\ nth_error metrics3 1 = Some (1 # 2)
    /\ (1 # 4 < 1 # 2)%Q
    /\ out 1%nat = Some (Primary, 1 # 2)
    /\ out 1%nat <> nth_error secondary3 1.
Proof.
  eexists. split; [reflexivity |].
  split; [reflexivity |]. split; [reflexivity |].
  split; [reflexivity | discriminate].
Qed.

(** C5, amended. With [threshold_range] absent, frame [n] is the primary
    frame if [metrics[n] > threshold] and the secondary (filtered) frame
    otherwise, for every index [n] of the two clips. *)
Theorem limit_dark_single_threshold (T : Type) (PlaneStatsAverage : T -> Q)
  (clip filtered : list T) (threshold : Q) :
  exists out : nat -> option T,
    limit_dark PlaneStatsAverage clip filtered threshold None = Ok out
    /\ forall (n : nat) (f : T),
         nth_error clip n = Some f ->
         ((threshold < PlaneStatsAverage f)%Q -> out n = nth_error clip n)
         /\ (~ (threshold < PlaneStatsAverage f)%Q ->
             (n < length filtered)%nat ->
             out n = nth_error filtered n).
Proof. apply limit_dark_absent. reflexivity. Qed.

Lemma limit_dark_single_threshold_witness :
  exists out : nat -> option (origin * Q),
    limit_dark snd primary3 secondary3 (1 # 4) None = Ok out
    /\ out 0%nat = nth_error secondary3 0
    /\ out 2%nat = nth_error primary3 2.
Proof.
  destruct (limit_dark_single_threshold snd primary3 secondary3 (1 # 4))
    as (out & Hout & Hsel).
  exists out. split; [exact Hout |]. split.
  - apply (Hsel 0%nat (Primary, 1 # 10)); [reflexivity | | simpl; lia].
    intros H. discriminate H.
  - apply (Hsel 2%nat (Primary, 9 # 10)); reflexivity.
Defined.

(** C6. With [threshold_range] absent, metrics [0.1, 0.5, 0.9] and
    threshold 0.25 the frames delivered are secondary, primary, primary;
    and for every index of the two clips, a metric at or below the
    threshold selects the secondary (filtered) frame and a metric above
    it the primary one. *)
Theorem limit_dark_polarity :
  (exists out : nat -> option (origin * Q),
      limit_dark snd primary3 secondary3 (1 # 4) None = Ok out
      /\ frames 3 out
         = [Some (Secondary, 1 # 10); Some (Primary, 1 # 2);
            Some (Primary, 9 # 10)])
  /\ (forall (T : Type) (PlaneStatsAverage : T -> Q) (clip filtered : list T)
             (threshold : Q),
        exists out : nat -> option T,
          limit_dark PlaneStatsAverage clip filtered threshold None = Ok out
          /\ forall (n : nat) (f : T),
               nth_error clip n = Some f ->
               ((PlaneStatsAverage f <= threshold)%Q ->
                (n < length filtered)%nat ->
                out n = nth_error filtered n)
               /\ ((threshold < PlaneStatsAverage f)%Q ->
                   out n = nth_error clip n)).
Proof.
  split.
  - eexists. split; reflexivity.
  - intros T avg clip filtered threshold.
    destruct (@limit_dark_absent T avg clip filtered threshold None eq_refl)
      as (out & Hout & Hsel).
    exists out. split; [exact Hout |].
    intros n f Hf. destruct (Hsel n f Hf) as [Habove Hbelow].
    split; [| exact Habove].
    intros Hle Hn. apply Hbelow; [apply Qle_not_lt, Hle | exact Hn].
Qed.

Lemma limit_dark_polarity_witness :
  exists out : nat -> option (origin * Q),
    limit_dark snd primary3 secondary3 (1 # 4) None = Ok out
    /\ out 0%nat = nth_error secondary3 0
    /\ out 1%nat = nth_error primary3 1.
Proof.
  destruct limit_dark_polarity as [_ Hall].
  destruct (Hall _ snd primary3 secondary3 (1 # 4)) as (out & Hout & Hsel).
  exists out. split; [exact Hout |]. split.
  - apply (Hsel 0%nat (Primary, 1 # 10)); [reflexivity | | simpl; lia].
    intros H. discriminate H.
  - apply (Hsel 1%nat (Primary, 1 # 2)); reflexivity.
Defined.

(** C7, as stated, fails: [threshold_range = 0] is present, the average
    -0.5 is outside the band [0, 0.25], and the frame delivered is the
    filtered one. *)
Lemma limit_dark_zero_range_outside_band :
  exists out : nat -> option (origin * Q),
    limit_dark snd [(Primary, - (1 # 2))%Q] [(Secondary, - (1 # 2))%Q]
      (1 # 4) (Some 0%Q) = Ok out
    /\ ~ (0 <= - (1 # 2))%Q
    /\ out 0%nat = Some (Secondary, - (1 # 2))%Q
    /\ out 0%nat <> nth_error [(Primary, - (1 # 2))%Q] 0.
Proof.
  eexists. split; [reflexivity |]. split; [| split].
  - intros H. apply H. reflexivity.
  - reflexivity.
  - discriminate.
Qed.

(** C7, amended. With a [threshold_range] that is present and not zero,
    frame [n] is the secondary (filtered) frame if
    [threshold_range <= metrics[n] <= threshold] and the primary frame
    otherwise, for every index [n] of the two clips. *)
Theorem limit_dark_band (T : Type) (PlaneStatsAverage : T -> Q)
  (clip filtered : list T) (threshold threshold_range : Q)
  (out : nat -> option T) (n : nat) (f : T) :
  ~ (threshold_range == 0)%Q ->
  limit_dark PlaneStatsAverage clip filtered threshold (Some threshold_range)
  = Ok out ->
  nth_error clip n = Some f ->
  ((threshold_range <= PlaneStatsAverage f)%Q
   /\ (PlaneStatsAverage f <= threshold)%Q ->
   (n < length filtered)%nat ->
   out n = nth_error filtered n)
  /\ (~ ((threshold_range <= PlaneStatsAverage f)%Q
         /\ (PlaneStatsAverage f <= threshold)%Q) ->
      out n = nth_error clip n).
Proof.
  intros Hnz Hout Hf.
  rewrite (@limit_dark_frame T PlaneStatsAverage clip filtered threshold
             (Some threshold_range) out n f Hout Hf).
  unfold _diff. rewrite (truthy_nonzero Hnz).
  destruct (Qle_bool threshold_range (PlaneStatsAverage f)) eqn:E1;
    destruct (Qle_bool (PlaneStatsAverage f) threshold) eqn:E2; simpl.
  - split; [intros _ Hn; apply get_frame_inside, Hn |].
    intros H. exfalso. apply H. split; apply Qle_bool_iff; assumption.
  - split; [| intros _; eapply nth_error_get_frame, Hf].
    intros [_ H]. apply Qle_bool_iff in H. congruence.
  - split; [| intros _; eapply nth_error_get_frame, Hf].
    intros [H _]. apply Qle_bool_iff in H. congruence.
  - split; [| intros _; eapply nth_error_get_frame, Hf].
    intros [H _]. apply Qle_bool_iff in H. congruence.
Qed.

Lemma limit_dark_band_witness :
  exists out : nat -> option (origin * Q),
    limit_dark snd primary3 secondary3 (1 # 2) (Some (2 # 10)) = Ok out
    /\ out 0%nat = nth_error primary3 0
    /\ out 1%nat = nth_error secondary3 1.
Proof.
  eexists. split; [reflexivity |]. split.
  - apply (@limit_dark_band _ snd primary3 secondary3 (1 # 2) (2 # 10) _
             0%nat (Primary, 1 # 10)).
    + intros H. discriminate H.
    + reflexivity.
    + reflexivity.
    + intros [H _]. apply H. reflexivity.
  - apply (@limit_dark_band _ snd primary3 secondary3 (1 # 2) (2 # 10) _
             1%nat (Primary, 1 # 2)).
    + intros H. discriminate H.
    + reflexivity.
    + reflexivity.
    + split; intros H; discriminate H.
    + simpl. lia.
Defined.

(** C8, as stated, fails: [threshold_range = 0] is present and greater
    than the threshold -1, and no error is raised. *)
Lemma limit_dark_zero_range_not_checked :
  (-1 < 0)%Q
  /\ is_ok (limit_dark snd primary3 secondary3 (-1) (Some 0%Q)) = true.
Proof. split; reflexivity. Qed.

(** C8, amended. [limit_dark] raises [ValueError] if and only if
    [threshold_range] is present, not zero, and greater than [threshold].
    The error comes from the call itself, whatever the clips and their
    frame averages are, and no clip is returned; in every other case the
    call returns the lazily evaluated clip. *)
Theorem limit_dark_configuration_error (threshold : Q)
  (threshold_range : option Q) :
  ((exists v : Q,
       threshold_range = Some v /\ ~ (v == 0)%Q /\ (threshold < v)%Q) ->
   forall (T : Type) (PlaneStatsAverage : T -> Q) (clip filtered : list T),
     limit_dark PlaneStatsAverage clip filtered threshold threshold_range
     = Err ValueError)
  /\ (~ (exists v : Q,
           threshold_range = Some v /\ ~ (v == 0)%Q /\ (threshold < v)%Q) ->
      forall (T : Type) (PlaneStatsAverage : T -> Q) (clip filtered : list T),
        limit_dark PlaneStatsAverage clip filtered threshold threshold_range
        = Ok (FrameEval clip
                (fun n f => _diff PlaneStatsAverage n f clip filtered
                              threshold threshold_range)
                (PlaneStats clip))).
Proof.
  split.
  - intros (v & -> & Hnz & Hgt) T avg clip filtered.
    unfold limit_dark. rewrite (truthy_nonzero Hnz).
    apply Qgt_bool_iff in Hgt. rewrite Hgt. reflexivity.
  - intros Hno T avg clip filtered. unfold limit_dark.
    destruct (truthy threshold_range) as [v |] eqn:E; [| reflexivity].
    destruct (Qgt_bool v threshold) eqn:G; [| reflexivity].
    exfalso. apply Hno. exists v.
    apply truthy_some in E. destruct E as [-> Hnz].
    apply Qgt_bool_iff in G. auto.
Qed.

Lemma limit_dark_configuration_error_witness :
  limit_dark snd primary3 secondary3 (1 # 2) (Some (6 # 10)) = Err ValueError
  /\ is_ok (limit_dark snd primary3 secondary3 (1 # 2) (Some (2 # 10))) = true.
Proof.
  split.
  - apply (proj1 (limit_dark_configuration_error (1 # 2) (Some (6 # 10)))).
    exists (6 # 10). split; [reflexivity |]. split.
    + intros H. discriminate H.
    + reflexivity.
  - rewrite (proj2 (limit_dark_configuration_error (1 # 2) (Some (2 # 10)))).
    + reflexivity.
    + intros (v & [= <-] & _ & H). discriminate H.
Defined.

(** C10. A [threshold_range] of 0 is treated as absent: the call returns
    a clip and raises nothing, also when [threshold < 0], and every frame
    is decided by the single-threshold rule, as with [None], for every
    index [n] of the two clips. *)
Theorem limit_dark_zero_range_is_absent (T : Type)
  (PlaneStatsAverage : T -> Q) (clip filtered : list T)
  (threshold threshold_range : Q) :
  (threshold_range == 0)%Q ->
  exists out : nat -> option T,
    limit_dark PlaneStatsAverage clip filtered threshold (Some threshold_range)
    = Ok out
    /\ limit_dark PlaneStatsAverage clip filtered threshold None = Ok out
    /\ forall (n : nat) (f : T),
         nth_error clip n = Some f ->
         ((threshold < PlaneStatsAverage f)%Q -> out n = nth_error clip n)
         /\ (~ (threshold < PlaneStatsAverage f)%Q ->
             (n < length filtered)%nat ->
             out n = nth_error filtered n).
Proof.
  intros Hz.
  destruct (@limit_dark_absent T PlaneStatsAverage clip filtered threshold
              (Some threshold_range) (truthy_zero Hz))
    as (out & Hout & Hsel).
  exists out. split; [exact Hout |]. split; [| exact Hsel].
  rewrite <- Hout. unfold limit_dark, _diff.
  rewrite (truthy_zero Hz). reflexivity.
Qed.

Lemma limit_dark_zero_range_is_absent_witness :
  exists out : nat -> option (origin * Q),
    limit_dark snd primary3 secondary3 (-1) (Some 0%Q) = Ok out
    /\ limit_dark snd primary3 secondary3 (-1) None = Ok out
    /\ out 0%nat = nth_error primary3 0.
Proof.
  destruct (@limit_dark_zero_range_is_absent _ snd primary3 secondary3
              (-1) 0%Q (Qeq_refl 0))
    as (out & Hsome & Hnone & Hsel).
  exists out. split; [exact Hsome |]. split; [exact Hnone |].
  apply (Hsel 0%nat (Primary, 1 # 10)); reflexivity.
Defined.

(** ** frames_since_bookmark *)

Lemma bookmark_loop_step (n : Z) (bookmarks : list Z) (i : nat)
  (bookmark : Z) (rest : list Z) (result : option Z) :
  bookmark_loop n bookmarks i (bookmark :: rest) result
  = if (0 <=? n - bookmark) && (length bookmarks <=? i + 1)%nat
    then bookmark_loop n bookmarks (S i) rest (Some (n - bookmark))
    else if 0 <=? n - bookmark
    then match nth_error bookmarks (i + 1) with
         | None => Err IndexError
         | Some next =>
             if n - next <? 0
             then Ok (Some (n - bookmark))
             else bookmark_loop n bookmarks (S i) rest result
         end
    else bookmark_loop n bookmarks (S i) rest result.
Proof. reflexivity. Qed.

(** The loop, entered at the bookmark [b] with [b <= n] and the bookmarks
    [pre] behind it: it ends with [result] set to [n - g], where [g] is
    the greatest of the remaining bookmarks that is at most [n]. *)
Lemma bookmark_loop_greatest (n : Z) (rest : list Z) :
  forall (pre : list Z) (b : Z) (result : option Z),
  ascending (b :: rest) ->
  b <= n ->
  exists g : Z,
    In g (b :: rest)
    /\ g <= n
    /\ (forall y, In y (b :: rest) -> y <= n -> y <= g)
    /\ bookmark_loop n (pre ++ b :: rest) (length pre) (b :: rest) result
       = Ok (Some (n - g)).
Proof.
  induction rest as [| c rest IH]; intros pre b result Hasc Hb.
  - exists b. split; [left; reflexivity |]. split; [assumption |]. split.
    + intros y [<- | []] _. lia.
    + simpl. destruct (Z.leb_spec 0 (n - b)); [| lia].
      rewrite length_app. simpl length.
      destruct (Nat.leb_spec (length pre + 1) (length pre + 1)); [| lia].
      reflexivity.
  - destruct Hasc as [Hb_le Hasc].
    assert (Hnext : nth_error (pre ++ b :: c :: rest) (length pre + 1)
                    = Some c).
    { rewrite nth_error_app2 by lia.
      replace (length pre + 1 - length pre)%nat with 1%nat by lia.
      reflexivity. }
    rewrite bookmark_loop_step.
    destruct (Z.leb_spec 0 (n - b)); [| lia].
    rewrite length_app. simpl length.
    destruct (Nat.leb_spec (length pre + S (S (length rest)))
                (length pre + 1)); [lia |].
    cbn [andb]. rewrite Hnext.
    destruct (Z.ltb_spec (n - c) 0) as [Hc | Hc].
    + exists b. split; [left; reflexivity |]. split; [assumption |].
      split; [| reflexivity].
      intros y [<- | Hy] Hyn; [lia |].
      assert (c <= y).
      { destruct Hy as [<- | Hy]; [lia |]. apply (proj1 Hasc). exact Hy. }
      lia.
    + destruct (IH (pre ++ [b]) c result Hasc ltac:(lia))
        as (g & Hg_in & Hg_le & Hg_max & Hloop).
      exists g. split; [right; exact Hg_in |]. split; [exact Hg_le |]. split.
      * intros y [<- | Hy] Hyn.
        -- assert (b <= c) by (apply Hb_le; left; reflexivity).
           assert (c <= g) by (apply Hg_max; [left; reflexivity | lia]).
           lia.
        -- apply Hg_max; assumption.
      * replace (pre ++ b :: c :: rest) with ((pre ++ [b]) ++ c :: rest)
          by (rewrite <- app_assoc; reflexivity).
        replace (S (length pre)) with (length (pre ++ [b]))
          by (rewrite length_app; simpl; lia).
        exact Hloop.
Qed.

(** C9. For a non-decreasing bookmark list whose first element is at most
    [n], the value computed is [n - b] for the greatest bookmark [b] with
    [b <= n]; for the bookmarks [0, 5, 10] it is 2 at frame 7 and 2 at
    frame 12. *)
Theorem frames_since_bookmark_greatest :
  (forall (n first : Z) (others : list Z),
      ascending (first :: others) ->
      first <= n ->
      exists b : Z,
        In b (first :: others)
        /\ b <= n
        /\ (forall b', In b' (first :: others) -> b' <= n -> b' <= b)
        /\ _frames_since_bookmark n (first :: others) = Ok (n - b))
  /\ _frames_since_bookmark 7 [0; 5; 10] = Ok 2
  /\ _frames_since_bookmark 12 [0; 5; 10] = Ok 2.
Proof.
  split; [| split; reflexivity].
  intros n first others Hasc Hfirst.
  destruct (@bookmark_loop_greatest n others [] first None Hasc Hfirst)
    as (g & Hin & Hle & Hmax & Hloop).
  exists g. split; [exact Hin |]. split; [exact Hle |]. split; [exact Hmax |].
  unfold _frames_since_bookmark. simpl app in Hloop. simpl length in Hloop.
  rewrite Hloop. reflexivity.
Qed.

Lemma frames_since_bookmark_greatest_witness :
  exists b : Z,
    In b [0; 5; 5; 10]
    /\ b <= 6
    /\ (forall b', In b' [0; 5; 5; 10] -> b' <= 6 -> b' <= b)
    /\ _frames_since_bookmark 6 [0; 5; 5; 10] = Ok (6 - b).
Proof.
  apply (proj1 frames_since_bookmark_greatest 6 0 [5; 5; 10]).
  - simpl. repeat split; intros y Hy; simpl in Hy; lia.
  - lia.
Defined.

(** * Further properties of the code *)

(** ** replace_ranges *)

(** Index by index: after ranges that start inside the clip and do not
    end before they start, on clips of equal length, frame [i] of the
    output is frame [i] of the replacement if some range covers [i], and
    frame [i] of the base otherwise. *)
Theorem replace_ranges_index_wise (T : Type) (policy : empty_policy)
  (base replacement : list T) (ranges : list range) :
  length base = length replacement ->
  Forall (start_in_bounds (length base)) ranges ->
  exists out : list T,
    replace_ranges policy base replacement ranges = Ok out
    /\ forall i : nat,
         nth_error out i
         = if covered ranges i then nth_error replacement i
           else nth_error base i.
Proof.
  intros Hlen Hin. eexists. split.
  - apply for_ranges_overlay; assumption.
  - intros i. apply overlay_nth. assumption.
Qed.

Lemma replace_ranges_index_wise_witness :
  exists out : list Z,
    replace_ranges EmptyRefused base10 repl10 [Span 0 5; Span 3 8] = Ok out
    /\ nth_error out 4 = Some 104
    /\ nth_error out 9 = Some 9.
Proof.
  destruct (@replace_ranges_index_wise Z EmptyRefused base10 repl10
              [Span 0 5; Span 3 8]) as (out & Hout & Hnth).
  - reflexivity.
  - repeat constructor; simpl; lia.
  - exists out. split; [exact Hout |]. split.
    + rewrite Hnth. reflexivity.
    + rewrite Hnth. reflexivity.
Defined.

(** The range from 0 to the last index of the base returns the
    replacement itself, when it has frames and no more of them than the
    base. *)
Theorem replace_ranges_full_span (T : Type) (policy : empty_policy)
  (base replacement : list T) :
  replacement <> [] ->
  (length replacement <= length base)%nat ->
  replace_ranges policy base replacement
    [Span 0 (Z.of_nat (length base) - 1)]
  = Ok replacement.
Proof.
  intros Hne Hlen.
  assert (0 < length replacement)%nat
    by (destruct replacement; [congruence | simpl; lia]).
  unfold replace_ranges, for_ranges, replace_range. simpl range_bounds.
  cbv beta iota zeta.
  rewrite getslice_between by lia. simpl bind.
  unfold Clip.num_frames. rewrite Z.ltb_irrefl.
  simpl. f_equal. apply firstn_all2. lia.
Qed.

Lemma replace_ranges_full_span_witness :
  replace_ranges EmptyRefused base10 repl10
    [Span 0 (Z.of_nat (length base10) - 1)]
  = Ok repl10.
Proof.
  apply replace_ranges_full_span.
  - discriminate.
  - simpl. lia.
Defined.

(** Ranges given in one list, or in two calls with the output of the
    first as the base of the second: the same result, errors included. *)
Theorem replace_ranges_app (T : Type) (policy : empty_policy)
  (base replacement : list T) (ranges1 ranges2 : list range) :
  replace_ranges policy base replacement (ranges1 ++ ranges2)
  = (mid <- replace_ranges policy base replacement ranges1 ;;
     replace_ranges policy mid replacement ranges2).
Proof. apply for_ranges_app. Qed.

(** The output depends on the indices the ranges cover, not on how the
    ranges are cut or ordered: overlapping ranges act as their union. *)
Theorem replace_ranges_same_coverage (T : Type) (policy : empty_policy)
  (base replacement : list T) (ranges1 ranges2 : list range) :
  length base = length replacement ->
  Forall (start_in_bounds (length base)) ranges1 ->
  Forall (start_in_bounds (length base)) ranges2 ->
  (forall i : nat, (i < length base)%nat ->
                   covered ranges1 i = covered ranges2 i) ->
  exists out : list T,
    replace_ranges policy base replacement ranges1 = Ok out
    /\ replace_ranges policy base replacement ranges2 = Ok out.
Proof.
  intros Hlen H1 H2 Hcov.
  exists (overlay (covered ranges1) base replacement).
  unfold replace_ranges. split.
  - apply for_ranges_overlay; assumption.
  - rewrite for_ranges_overlay by assumption.
    f_equal. apply overlay_ext. intros i Hi. symmetry. apply Hcov, Hi.
Qed.

Lemma replace_ranges_same_coverage_witness :
  exists out : list Z,
    replace_ranges EmptyRefused base10 repl10 [Span 3 8; Span 0 5] = Ok out
    /\ replace_ranges EmptyRefused base10 repl10 [Span 0 8] = Ok out.
Proof.
  apply replace_ranges_same_coverage.
  - reflexivity.
  - repeat constructor; simpl; lia.
  - repeat constructor; simpl; lia.
  - intros i Hi. simpl in Hi.
    do 10 (destruct i as [| i]; [reflexivity |]). lia.
Defined.

(** Replacing the same ranges again, in the output, changes nothing. *)
Theorem replace_ranges_idempotent (T : Type) (policy : empty_policy)
  (base replacement out : list T) (ranges : list range) :
  length base = length replacement ->
  Forall (start_in_bounds (length base)) ranges ->
  replace_ranges policy base replacement ranges = Ok out ->
  replace_ranges policy out replacement ranges = Ok out.
Proof.
  intros Hlen Hin Hout. unfold replace_ranges in *.
  rewrite for_ranges_overlay in Hout by assumption.
  injection Hout as <-.
  rewrite for_ranges_overlay.
  - rewrite overlay_overlay. f_equal. apply overlay_ext.
    intros i _. apply orb_diag.
  - rewrite overlay_length. assumption.
  - rewrite overlay_length. assumption.
Qed.

Lemma replace_ranges_idempotent_witness :
  replace_ranges EmptyRefused [100; 101; 102; 103; 4; 5; 6; 7; 8; 9] repl10
    [Span 0 1; Frame 3; Span 2 2]
  = Ok [100; 101; 102; 103; 4; 5; 6; 7; 8; 9].
Proof.
  apply (@replace_ranges_idempotent Z EmptyRefused base10).
  - reflexivity.
  - repeat constructor; simpl; lia.
  - reflexivity.
Defined.


Lemma clamp_index_nonneg (len i : Z) :
  0 <= len -> 0 <= Clip.clamp_index len i.
Proof.
  intros H. unfold Clip.clamp_index.
  destruct (Z.ltb_spec i 0).
  - destruct (Z.ltb_spec (i + len) 0); lia.
  - destruct (Z.ltb_spec len i); lia.
Qed.



Lemma replace_range_end_minus_one (T : Type)
  (clip_b out : list T) (r : range) :
  snd (range_bounds r) = -1 ->
  replace_range EmptyRefused clip_b out r = Err EngineError.
Proof.
  intros He. unfold replace_range. destruct (range_bounds r) as [s e].
  simpl in He. subst e.
  unfold Clip.getslice, Clip.slice_indices, Clip.num_frames. simpl Z.add.
  rewrite (clamp_index_inside (i := 0)) by lia.
  pose proof (@clamp_index_nonneg (Z.of_nat (length clip_b)) s
                ltac:(lia)) as Hlo.
  destruct (Z.ltb_spec
              (Clip.clamp_index (Z.of_nat (length clip_b)) s) 0);
    [lia | reflexivity].
Qed.

(** A range that ends at -1, the single frame -1 included, asks the
    replacement for the slice [clip_b[start:0]], which selects no frame:
    where empty slices are allowed that slice is empty, and on an engine
    without empty clips the call fails, wherever the range stands in the
    list. *)
Theorem replace_ranges_end_minus_one (T : Type)
  (base replacement : list T) (r : range) (before after : list range) :
  snd (range_bounds r) = -1 ->
  Clip.getslice EmptyAllowed replacement
    (Some (fst (range_bounds r))) (Some (snd (range_bounds r) + 1))
  = Ok []
  /\ replace_ranges EmptyRefused base replacement (before ++ r :: after)
     = Err EngineError.
Proof.
  intros He. split.
  - rewrite He. unfold Clip.getslice, Clip.slice_indices, Clip.num_frames.
    simpl Z.add. rewrite (clamp_index_inside (i := 0)) by lia.
    pose proof (@clamp_index_nonneg (Z.of_nat (length replacement))
                  (fst (range_bounds r)) ltac:(lia)) as Hlo.
    destruct (Z.ltb_spec
                (Clip.clamp_index (Z.of_nat (length replacement))
                   (fst (range_bounds r))) 0);
      [lia | reflexivity].
  - unfold replace_ranges. rewrite for_ranges_app.
    destruct (for_ranges EmptyRefused replacement before base)
      as [working | e] eqn:Hbefore; simpl.
    + rewrite replace_range_end_minus_one by exact He. reflexivity.
    + f_equal. eapply for_ranges_error, Hbefore.
Qed.

Lemma replace_ranges_end_minus_one_witness :
  Clip.getslice EmptyAllowed repl10 (Some (-1)) (Some (-1 + 1)) = Ok []
  /\ replace_ranges EmptyRefused base10 repl10
       ([Span 0 2] ++ Frame (-1) :: [Frame 5])
     = Err EngineError.
Proof.
  apply (@replace_ranges_end_minus_one Z base10 repl10 (Frame (-1))
           [Span 0 2] [Frame 5]).
  reflexivity.
Defined.

(** ** limit_dark *)

Lemma limit_dark_beyond (T : Type) (PlaneStatsAverage : T -> Q)
  (clip filtered : list T) (threshold : Q) (threshold_range : option Q)
  (out : nat -> option T) (n : nat) :
  limit_dark PlaneStatsAverage clip filtered threshold threshold_range
  = Ok out ->
  (length clip <= n)%nat -> out n = None.
Proof.
  unfold limit_dark. intros Hout Hn.
  destruct (match truthy threshold_range with
            | Some v => Qgt_bool v threshold
            | None => false
            end); [discriminate |].
  injection Hout as <-. unfold FrameEval.
  apply Nat.ltb_ge in Hn. rewrite Hn. reflexivity.
Qed.

(** Every frame [n] of the returned clip is frame [n] of the input clip
    or the answer to a request for frame [n] of the filtered clip: its
    frame [n], or its last frame where the filtered clip is too short.
    There is no frame beyond the length of the input clip. *)
Theorem limit_dark_frame_origin (T : Type) (PlaneStatsAverage : T -> Q)
  (clip filtered : list T) (threshold : Q) (threshold_range : option Q)
  (out : nat -> option T) :
  limit_dark PlaneStatsAverage clip filtered threshold threshold_range
  = Ok out ->
  forall n : nat,
    ((n < length clip)%nat ->
     out n = nth_error clip n
     \/ ((n < length filtered)%nat /\ out n = nth_error filtered n)
     \/ ((length filtered <= n)%nat
         /\ out n = nth_error filtered (length filtered - 1)))
    /\ ((length clip <= n)%nat -> out n = None).
Proof.
  intros Hout n. split; [| eapply limit_dark_beyond, Hout].
  intros Hn.
  destruct (nth_error clip n) as [f |] eqn:Hf;
    [| apply nth_error_None in Hf; lia].
  rewrite (@limit_dark_frame T PlaneStatsAverage clip filtered threshold
             threshold_range out n f Hout Hf).
  assert (Hclip : Clip.get_frame clip n = Some f)
    by (rewrite (get_frame_inside clip Hn); exact Hf).
  assert (Hfiltered :
    ((n < length filtered)%nat
     /\ Clip.get_frame filtered n = nth_error filtered n)
    \/ ((length filtered <= n)%nat
        /\ Clip.get_frame filtered n
           = nth_error filtered (length filtered - 1))).
  { destruct (Nat.lt_ge_cases n (length filtered)) as [Hlt | Hge].
    - left. split; [exact Hlt | apply get_frame_inside, Hlt].
    - right. split; [exact Hge | apply get_frame_beyond, Hge]. }
  unfold _diff.
  destruct (truthy threshold_range) as [v |].
  - destruct (Qle_bool v (PlaneStatsAverage f)
              && Qle_bool (PlaneStatsAverage f) threshold); auto.
  - destruct (Qgt_bool (PlaneStatsAverage f) threshold); auto.
Qed.

Lemma limit_dark_frame_origin_witness :
  exists out : nat -> option (origin * Q),
    limit_dark snd primary3 [(Secondary, 1 # 10)%Q] 1 None = Ok out
    /\ (out 1%nat = nth_error primary3 1
        \/ ((1 < 1)%nat /\ out 1%nat = nth_error [(Secondary, 1 # 10)%Q] 1)
        \/ ((1 <= 1)%nat /\ out 1%nat = Some (Secondary, 1 # 10)%Q))
    /\ out 3%nat = None.
Proof.
  eexists. split; [reflexivity |].
  split.
  - apply (@limit_dark_frame_origin _ snd primary3 [(Secondary, 1 # 10)%Q]
             1 None _ eq_refl 1%nat).
    simpl. lia.
  - apply (@limit_dark_frame_origin _ snd primary3 [(Secondary, 1 # 10)%Q]
             1 None _ eq_refl 3%nat).
    simpl. lia.
Defined.

(** A [threshold_range] only takes frames away from the filtered clip:
    each frame is the one delivered without [threshold_range], or the
    frame of the input clip. *)
Theorem limit_dark_range_only_restricts (T : Type)
  (PlaneStatsAverage : T -> Q) (clip filtered : list T)
  (threshold : Q) (threshold_range : option Q)
  (ranged single : nat -> option T) :
  limit_dark PlaneStatsAverage clip filtered threshold threshold_range
  = Ok ranged ->
  limit_dark PlaneStatsAverage clip filtered threshold None = Ok single ->
  forall n : nat, ranged n = single n \/ ranged n = nth_error clip n.
Proof.
  intros Hr Hs n.
  destruct (nth_error clip n) as [f |] eqn:Hf.
  - rewrite (@limit_dark_frame T PlaneStatsAverage clip filtered threshold
               threshold_range ranged n f Hr Hf).
    rewrite (@limit_dark_frame T PlaneStatsAverage clip filtered threshold
               None single n f Hs Hf).
    assert (Hclip : Clip.get_frame clip n = Some f)
      by (rewrite (@nth_error_get_frame T clip n f Hf); exact Hf).
    unfold _diff. simpl truthy.
    destruct (truthy threshold_range) as [v |]; [| left; reflexivity].
    destruct (Qle_bool v (PlaneStatsAverage f)) eqn:E1;
      destruct (Qle_bool (PlaneStatsAverage f) threshold) eqn:E2; simpl;
      try (right; exact Hclip).
    left. apply Qle_bool_iff in E2.
    destruct (Qgt_bool (PlaneStatsAverage f) threshold) eqn:G;
      [| reflexivity].
    apply Qgt_bool_iff in G. apply Qle_not_lt in E2. contradiction.
  - right.
    rewrite (@limit_dark_beyond T PlaneStatsAverage clip filtered
               threshold threshold_range ranged n Hr); [reflexivity |].
    apply nth_error_None. exact Hf.
Qed.

Lemma limit_dark_range_only_restricts_witness :
  exists ranged single : nat -> option (origin * Q),
    limit_dark snd primary3 secondary3 (1 # 2) (Some (2 # 10)) = Ok ranged
    /\ limit_dark snd primary3 secondary3 (1 # 2) None = Ok single
    /\ (ranged 0%nat = single 0%nat \/ ranged 0%nat = nth_error primary3 0).
Proof.
  eexists. eexists. split; [reflexivity |]. split; [reflexivity |].
  apply (@limit_dark_range_only_restricts _ snd primary3 secondary3 (1 # 2)
           (Some (2 # 10)) _ _ eq_refl eq_refl 0%nat).
Defined.

(** ** frames_since_bookmark, on any list of bookmarks *)

(** As long as every bookmark still to come is after [n], the loop
    leaves [result] as it is. *)
Lemma bookmark_loop_all_after (n : Z) (rest : list Z) :
  forall (pre : list Z) (result : option Z),
  (forall b, In b rest -> n < b) ->
  bookmark_loop n (pre ++ rest) (length pre) rest result = Ok result.
Proof.
  induction rest as [| b rest IH]; intros pre result Hall; [reflexivity |].
  rewrite bookmark_loop_step.
  assert (n < b) by (apply Hall; left; reflexivity).
  destruct (Z.leb_spec 0 (n - b)); [lia |]. cbn [andb].
  replace (pre ++ b :: rest) with ((pre ++ [b]) ++ rest)
    by (rewrite <- app_assoc; reflexivity).
  replace (S (length pre)) with (length (pre ++ [b]))
    by (rewrite length_app; simpl; lia).
  apply IH. intros y Hy. apply Hall. right. exact Hy.
Qed.

(** With a bookmark at or before [n] still to come, the loop ends with
    [result] set from one of them. *)
Lemma bookmark_loop_some_before (n : Z) (rest : list Z) :
  forall (pre : list Z) (result : option Z),
  (exists b, In b rest /\ b <= n) ->
  exists g : Z,
    In g rest /\ g <= n
    /\ bookmark_loop n (pre ++ rest) (length pre) rest result
       = Ok (Some (n - g)).
Proof.
  induction rest as [| b rest IH]; intros pre result (w & Hw & Hwn);
    [destruct Hw |].
  rewrite bookmark_loop_step.
  assert (Hshift :
    forall res, bookmark_loop n (pre ++ b :: rest) (S (length pre)) rest res
                = bookmark_loop n ((pre ++ [b]) ++ rest)
                    (length (pre ++ [b])) rest res).
  { intros res. rewrite <- app_assoc, length_app. simpl.
    replace (length pre + 1)%nat with (S (length pre)) by lia. reflexivity. }
  destruct (Z.leb_spec 0 (n - b)) as [Hb | Hb]; cbn [andb].
  - destruct rest as [| c rest].
    + exists b. split; [left; reflexivity |]. split; [lia |].
      rewrite length_app. simpl length.
      destruct (Nat.leb_spec (length pre + 1) (length pre + 1)); [| lia].
      reflexivity.
    + rewrite length_app. simpl length.
      destruct (Nat.leb_spec (length pre + S (S (length rest)))
                  (length pre + 1)); [lia |].
      assert (Hnext : nth_error (pre ++ b :: c :: rest) (length pre + 1)
                      = Some c).
      { rewrite nth_error_app2 by lia.
        replace (length pre + 1 - length pre)%nat with 1%nat by lia.
        reflexivity. }
      rewrite Hnext.
      destruct (Z.ltb_spec (n - c) 0) as [Hc | Hc].
      * exists b. split; [left; reflexivity |]. split; [lia | reflexivity].
      * rewrite Hshift.
        destruct (IH (pre ++ [b]) result) as (g & Hg & Hgn & Hloop).
        { exists c. split; [left; reflexivity | lia]. }
        exists g. split; [right; exact Hg |]. split; [exact Hgn | exact Hloop].
  - rewrite Hshift.
    destruct (IH (pre ++ [b]) result) as (g & Hg & Hgn & Hloop).
    { destruct Hw as [<- | Hw]; [lia |]. exists w. split; assumption. }
    exists g. split; [right; exact Hg |]. split; [exact Hgn | exact Hloop].
Qed.

(** Whatever the order of the bookmarks: if one of them is at or before
    [n], a value is returned, it is not negative, and it is the distance
    from [n] back to a bookmark of the list. *)
Theorem frames_since_bookmark_defined (n : Z) (bookmarks : list Z) :
  (exists b, In b bookmarks /\ b <= n) ->
  exists v b : Z,
    _frames_since_bookmark n bookmarks = Ok v
    /\ In b bookmarks /\ v = n - b /\ 0 <= v.
Proof.
  intros Hex.
  destruct (@bookmark_loop_some_before n bookmarks [] None Hex)
    as (g & Hg & Hgn & Hloop).
  exists (n - g), g. unfold _frames_since_bookmark.
  simpl app in Hloop. simpl length in Hloop. rewrite Hloop.
  simpl. repeat split; [assumption | lia].
Qed.

Lemma frames_since_bookmark_defined_witness :
  exists v b : Z,
    _frames_since_bookmark 7 [10; 0; 5] = Ok v
    /\ In b [10; 0; 5] /\ v = 7 - b /\ 0 <= v.
Proof.
  apply frames_since_bookmark_defined.
  exists 0. split; [right; left; reflexivity | lia].
Defined.

(** If every bookmark is after [n], and so for an empty list, the local
    [result] is never assigned and the call ends in an
    [UnboundLocalError]. *)
Theorem frames_since_bookmark_unbound (n : Z) (bookmarks : list Z) :
  (forall b, In b bookmarks -> n < b) ->
  _frames_since_bookmark n bookmarks = Err UnboundLocalError.
Proof.
  intros Hall. unfold _frames_since_bookmark.
  pose proof (@bookmark_loop_all_after n bookmarks [] None Hall) as Hloop.
  simpl app in Hloop. simpl length in Hloop. rewrite Hloop.
  reflexivity.
Qed.

Lemma frames_since_bookmark_unbound_witness :
  _frames_since_bookmark 3 [5; 10] = Err UnboundLocalError.
Proof.
  apply frames_since_bookmark_unbound.
  intros b [<- | [<- | []]]; lia.
Defined.

(** ** load_bookmarks *)

Section LoadBookmarksFacts.

Import String Ascii.

Variable int : string -> outcome Z.

Lemma append_empty_r (s : string) : (s ++ "")%string = s.
Proof. induction s as [| c s IH]; simpl; congruence. Qed.

Lemma append_assoc (s1 s2 s3 : string) :
  ((s1 ++ s2) ++ s3)%string = (s1 ++ s2 ++ s3)%string.
Proof. induction s1 as [| c s1 IH]; simpl; congruence. Qed.

(** A character other than the comma is added to the piece being read. *)
Lemma split_other (cur text : string) (c : ascii) :
  Ascii.eqb c ","%char = false ->
  split_comma_space cur (String c text)
  = split_comma_space (cur ++ String c "")%string text.
Proof.
  intros Hc.
  destruct c as [[] [] [] [] [] [] [] []]; try reflexivity; discriminate Hc.
Qed.

(** At the separator the piece read so far is complete. *)
Lemma split_separator (cur text : string) :
  split_comma_space cur (String "," (String " " text))
  = cur :: split_comma_space "" text.
Proof. reflexivity. Qed.

Lemma split_piece (piece : string) :
  forall cur text : string,
  has_comma piece = false ->
  split_comma_space cur (piece ++ text)%string
  = split_comma_space (cur ++ piece)%string text.
Proof.
  induction piece as [| c piece IH]; intros cur text Hp.
  - simpl. rewrite append_empty_r. reflexivity.
  - simpl in Hp. apply orb_false_iff in Hp. destruct Hp as [Hc Hp].
    change (String c piece ++ text)%string
      with (String c (piece ++ text)%string).
    rewrite split_other by exact Hc.
    rewrite IH by exact Hp. rewrite append_assoc. reflexivity.
Qed.

Lemma split_join (pieces : list string) :
  forall (cur piece : string),
  Forall (fun p => has_comma p = false) (piece :: pieces) ->
  split_comma_space cur (join_comma_space (piece :: pieces))
  = (cur ++ piece)%string :: pieces.
Proof.
  induction pieces as [| q pieces IH]; intros cur piece Hall.
  - simpl. inversion Hall as [| ? ? Hp _]; subst.
    rewrite <- (append_empty_r piece) at 1.
    rewrite split_piece by exact Hp. reflexivity.
  - inversion Hall as [| ? ? Hp Hrest]; subst.
    change (join_comma_space (piece :: q :: pieces))
      with (piece ++ ", " ++ join_comma_space (q :: pieces))%string.
    rewrite split_piece by exact Hp.
    change (", " ++ join_comma_space (q :: pieces))%string
      with (String "," (String " " (join_comma_space (q :: pieces)))).
    rewrite split_separator.
    rewrite (IH EmptyString q Hrest). reflexivity.
Qed.

Lemma split_comma_space_nonempty (text : string) :
  forall cur : string, split_comma_space cur text <> [].
Proof.
  induction text as [| c text IH]; intros cur; [discriminate |].
  destruct (Ascii.eqb c ","%char) eqn:Hc.
  - apply Ascii.eqb_eq in Hc. subst c.
    destruct text as [| d text]; [discriminate |].
    destruct (Ascii.eqb d " "%char) eqn:Hd.
    + apply Ascii.eqb_eq in Hd. subst d. discriminate.
    + replace (split_comma_space cur (String "," (String d text)))
        with (split_comma_space (cur ++ ",")%string (String d text)).
      * apply IH.
      * destruct d as [[] [] [] [] [] [] [] []]; try reflexivity;
          discriminate Hd.
  - rewrite split_other by exact Hc. apply IH.
Qed.

Lemma int_each_length (tokens : list string) :
  forall values : list Z,
  int_each int tokens = Ok values -> List.length values = List.length tokens.
Proof.
  induction tokens as [| t tokens IH]; intros values; simpl.
  - intros [= <-]. reflexivity.
  - destruct (int t) as [v |]; simpl; [| discriminate].
    destruct (int_each int tokens) as [vs |]; simpl; [| discriminate].
    intros [= <-]. simpl. f_equal. apply IH. reflexivity.
Qed.

Lemma int_each_error (tokens : list string) (e : error) :
  int_each int tokens = Err e ->
  exists token : string, In token tokens /\ int token = Err e.
Proof.
  induction tokens as [| t tokens IH]; simpl; [discriminate |].
  destruct (int t) as [v |] eqn:Ht; simpl.
  - destruct (int_each int tokens) as [vs |]; simpl; [discriminate |].
    intros [= <-]. destruct (IH eq_refl) as (token & Hin & Htok).
    exists token. auto.
  - intros [= <-]. exists t. auto.
Qed.

Lemma int_each_map (show : Z -> string) (values : list Z) :
  (forall z, In z values -> int (show z) = Ok z) ->
  int_each int (map show values) = Ok values.
Proof.
  induction values as [| z values IH]; intros Hall; simpl; [reflexivity |].
  rewrite (Hall z) by (left; reflexivity). simpl.
  rewrite IH by (intros y Hy; apply Hall; right; exact Hy).
  reflexivity.
Qed.

End LoadBookmarksFacts.

Section LoadBookmarksProperties.

Import String Ascii.

Lemma load_bookmarks_head (int : string -> outcome Z)
  (text : string) (bookmarks : list Z) :
  load_bookmarks int text = Ok bookmarks ->
  exists rest : list Z, bookmarks = 0 :: rest.
Proof.
  unfold load_bookmarks.
  destruct (int_each int (split_comma_space "" text)) as [parsed |];
    simpl; [| discriminate].
  destruct parsed as [| first parsed]; [discriminate |].
  destruct (Z.eqb_spec first 0) as [-> | Hne]; simpl; intros [= <-].
  - exists parsed. reflexivity.
  - exists (first :: parsed). reflexivity.
Qed.

(** The list returned always starts with 0. *)
Theorem load_bookmarks_starts_at_zero (int : string -> outcome Z)
  (text : string) (bookmarks : list Z) :
  load_bookmarks int text = Ok bookmarks ->
  exists rest : list Z, bookmarks = 0 :: rest.
Proof. apply load_bookmarks_head. Qed.

Lemma load_bookmarks_starts_at_zero_witness :
  exists rest : list Z, [0; 5; 10; 15] = 0 :: rest.
Proof.
  apply (@load_bookmarks_starts_at_zero int_decimal "5, 10, 15").
  reflexivity.
Defined.

(** The call fails only where [int] fails on one of the pieces of the
    text, with the error of [int]: [split] returns at least one piece,
    so that [bookmarks[0]] is always there. *)
Theorem load_bookmarks_error (int : string -> outcome Z) (text : string)
  (e : error) :
  load_bookmarks int text = Err e ->
  exists token : string,
    In token (split_comma_space "" text) /\ int token = Err e.
Proof.
  unfold load_bookmarks.
  destruct (int_each int (split_comma_space "" text)) as [parsed |] eqn:E;
    simpl.
  - destruct parsed as [| first parsed].
    + apply int_each_length in E. simpl in E.
      pose proof (split_comma_space_nonempty text "") as Hne.
      destruct (split_comma_space "" text); [congruence | discriminate].
    + destruct (negb (first =? 0)); discriminate.
  - intros [= <-]. apply int_each_error. exact E.
Qed.

Lemma load_bookmarks_error_witness :
  exists token : string,
    In token (split_comma_space "" "5,10, 15")
    /\ int_decimal token = Err ValueError.
Proof.
  apply load_bookmarks_error. reflexivity.
Defined.

(** Reading back a file that holds the numbers [first, ...] printed
    without commas and separated by [", "] gives these numbers, with 0 in
    front unless [first] is 0. *)
Theorem load_bookmarks_join (int : string -> outcome Z) (show : Z -> string)
  (first : Z) (others : list Z) :
  (forall z, In z (first :: others) -> int (show z) = Ok z) ->
  (forall z, In z (first :: others) -> has_comma (show z) = false) ->
  load_bookmarks int (join_comma_space (map show (first :: others)))
  = Ok (if first =? 0 then first :: others else 0 :: first :: others).
Proof.
  intros Hint Hcomma. unfold load_bookmarks.
  change (map show (first :: others)) with (show first :: map show others).
  rewrite split_join.
  - change (("" ++ show first)%string :: map show others)
      with (map show (first :: others)).
    rewrite int_each_map by exact Hint. simpl.
    destruct (first =? 0); reflexivity.
  - change (show first :: map show others) with (map show (first :: others)).
    apply Forall_map. apply Forall_forall. exact Hcomma.
Qed.

Lemma load_bookmarks_join_witness :
  load_bookmarks int_decimal (join_comma_space (map decimal [5; 10; 15]))
  = Ok [0; 5; 10; 15].
Proof.
  apply (@load_bookmarks_join int_decimal decimal 5 [10; 15]).
  - intros z [<- | [<- | [<- | []]]]; reflexivity.
  - intros z [<- | [<- | [<- | []]]]; reflexivity.
Defined.

(** After [load_bookmarks], every frame [n >= 0] has a value: 0 is in the
    list, so [frames_since_bookmark] finds a bookmark at or before [n];
    and when the list loaded is non-decreasing, the value is the distance
    to the greatest bookmark at or before [n]. *)
Theorem load_bookmarks_frames_since (int : string -> outcome Z)
  (text : string) (bookmarks : list Z) (n : Z) :
  load_bookmarks int text = Ok bookmarks ->
  0 <= n ->
  (exists v : Z, _frames_since_bookmark n bookmarks = Ok v /\ 0 <= v)
  /\ (ascending bookmarks ->
      exists b : Z,
        In b bookmarks /\ b <= n
        /\ (forall b', In b' bookmarks -> b' <= n -> b' <= b)
        /\ _frames_since_bookmark n bookmarks = Ok (n - b)).
Proof.
  intros Hload Hn.
  destruct (load_bookmarks_head _ _ Hload) as [rest ->].
  split.
  - destruct (@bookmark_loop_some_before n (0 :: rest) [] None)
      as (g & Hg & Hgn & Hloop).
    { exists 0. split; [left; reflexivity | exact Hn]. }
    exists (n - g). unfold _frames_since_bookmark.
    simpl app in Hloop. simpl List.length in Hloop. rewrite Hloop.
    simpl. split; [reflexivity | lia].
  - intros Hasc.
    destruct (@bookmark_loop_greatest n rest [] 0 None Hasc Hn)
      as (g & Hin & Hle & Hmax & Hloop).
    exists g. split; [exact Hin |]. split; [exact Hle |].
    split; [exact Hmax |].
    unfold _frames_since_bookmark.
    simpl app in Hloop. simpl List.length in Hloop. rewrite Hloop.
    reflexivity.
Qed.

Lemma load_bookmarks_frames_since_witness :
  (exists v : Z, _frames_since_bookmark 12 [0; 5; 10; 15] = Ok v /\ 0 <= v)
  /\ (ascending [0; 5; 10; 15] ->
      exists b : Z,
        In b [0; 5; 10; 15] /\ b <= 12
        /\ (forall b', In b' [0; 5; 10; 15] -> b' <= 12 -> b' <= b)
        /\ _frames_since_bookmark 12 [0; 5; 10; 15] = Ok (12 - b)).
Proof.
  apply (@load_bookmarks_frames_since int_decimal "5, 10, 15").
  - reflexivity.
  - lia.
Defined.

End LoadBookmarksProperties.

(** ** source *)

Section SourceProperties.

Import String Ascii.

Variable R : Type.
Variable is_image : string -> bool.
Variable mvsfunc_installed : bool.
Variable truth : R -> bool.

Lemma substring_all (s : string) : substring 0 (String.length s) s = s.
Proof. induction s as [| c s IH]; simpl; congruence. Qed.

Lemma strip_file_scheme_prefixed (path : string) :
  strip_file_scheme ("file:///" ++ path) = path.
Proof.
  unfold strip_file_scheme, startswith, drop. simpl.
  replace (prefix "" path) with true by (destruct path; reflexivity).
  rewrite ?Nat.sub_0_r. apply substring_all.
Qed.

(** VOB and TS files are refused whatever else is asked for, with
    [force_lsmas] too. *)
Theorem source_vob_ts_rejected (file : string) (ref : option R)
  (force_lsmas mpls : bool) (mpls_playlist mpls_angle : Z) :
  endswith (strip_file_scheme file) ".vob"
  || endswith (strip_file_scheme file) ".ts" = true ->
  source is_image mvsfunc_installed truth file ref force_lsmas mpls
    mpls_playlist mpls_angle
  = inl SourceValueError.
Proof.
  intros H. unfold source. rewrite H.
  destruct (endswith (strip_file_scheme file) ".mpls" && negb mpls);
    reflexivity.
Qed.

(** With [force_lsmas] the reference clip is never used: the call is
    refused for its file type, or returns the clip L-SMASH decodes, not
    brought to the format of [ref], and does not need [mvsfunc]. *)
Theorem source_force_lsmas_ignores_ref (file : string) (ref : option R)
  (mpls : bool) (mpls_playlist mpls_angle : Z) :
  source is_image mvsfunc_installed truth file ref true mpls
    mpls_playlist mpls_angle
  = inl SourceValueError
  \/ source is_image mvsfunc_installed truth file ref true mpls
       mpls_playlist mpls_angle
     = inr (Decoded (LWLibavSource (strip_file_scheme file))).
Proof.
  unfold source.
  destruct (endswith (strip_file_scheme file) ".mpls" && negb mpls);
    [left; reflexivity |].
  destruct (endswith (strip_file_scheme file) ".vob"
            || endswith (strip_file_scheme file) ".ts");
    [left | right]; reflexivity.
Qed.

(** A path and the same path behind ['file:///'] are loaded alike. *)
Theorem source_file_scheme (path : string) (ref : option R)
  (force_lsmas mpls : bool) (mpls_playlist mpls_angle : Z) :
  startswith path "file:///" = false ->
  source is_image mvsfunc_installed truth ("file:///" ++ path) ref
    force_lsmas mpls mpls_playlist mpls_angle
  = source is_image mvsfunc_installed truth path ref force_lsmas mpls
      mpls_playlist mpls_angle.
Proof.
  intros Hp. unfold source.
  rewrite strip_file_scheme_prefixed.
  replace (strip_file_scheme path) with path
    by (unfold strip_file_scheme; rewrite Hp; reflexivity).
  reflexivity.
Qed.


End SourceProperties.

Section SourceWitnesses.

Import String Ascii.

Lemma source_vob_ts_rejected_witness :
  source (fun _ => false) true (fun _ : unit => true)
    "file:///disc/VTS_01_1.vob" (Some tt) true false 0 0
  = inl SourceValueError.
Proof. apply source_vob_ts_rejected. reflexivity. Defined.

Lemma source_file_scheme_witness :
  source (fun _ => false) true (fun _ : unit => true)
    ("file:///" ++ "a.m2ts") (Some tt) false false 0 0
  = source (fun _ => false) true (fun _ : unit => true)
      "a.m2ts" (Some tt) false false 0 0.
Proof. apply source_file_scheme. reflexivity. Defined.


End SourceWitnesses.

(** ** util.resampler, util.quick_resample, fix_cr_tint *)

Section ResampleProperties.

Variable node : Type.
Variable format : node -> video_format.
Variable register_format :
  Z -> sample_type_t -> Z -> Z -> Z -> outcome video_format.
Variable Point : node -> video_format -> dither_type_t -> outcome node.
Variable Expr : node -> expr -> outcome node.

(** What the engine promises: a registered format has the fields asked
    for, and a resized clip has the format asked for. *)
Hypothesis register_format_fields :
  forall cf st bits sw sh form,
    register_format cf st bits sw sh = Ok form ->
    form = {| color_family := cf; sample_type := st; bits_per_sample := bits;
              subsampling_w := sw; subsampling_h := sh |}.
Hypothesis Point_format :
  forall clip form dither out,
    Point clip form dither = Ok out -> format out = form.

Lemma resampler_ok (clip out : node) (bitdepth : Z) :
  resampler format register_format Point clip bitdepth = Ok out ->
  bits_per_sample (format out) = bitdepth
  /\ color_family (format out) = color_family (format clip)
  /\ subsampling_w (format out) = subsampling_w (format clip)
  /\ subsampling_h (format out) = subsampling_h (format clip)
  /\ (bits_per_sample (format clip) <> bitdepth ->
      sample_type (format out)
      = if bitdepth <? 32 then INTEGER else FLOAT).
Proof.
  unfold resampler.
  destruct (Z.eqb_spec (bits_per_sample (format clip)) bitdepth) as [E | E].
  - intros [= <-]. repeat split; try assumption. intros H. contradiction.
  - destruct (register_format _ _ _ _ _) as [form |] eqn:Hreg;
      simpl; [| discriminate].
    intros Hp. apply Point_format in Hp. rewrite Hp.
    apply register_format_fields in Hreg. subst form. simpl.
    repeat split.
Qed.

(** The clip [resampler] returns has the bit depth asked for and the
    colour family and subsampling of the input; where the depth had to
    change, its samples are integers below 32 bits and floats from 32
    bits on. *)
Theorem resampler_format (clip out : node) (bitdepth : Z) :
  resampler format register_format Point clip bitdepth = Ok out ->
  bits_per_sample (format out) = bitdepth
  /\ color_family (format out) = color_family (format clip)
  /\ subsampling_w (format out) = subsampling_w (format clip)
  /\ subsampling_h (format out) = subsampling_h (format clip)
  /\ (bits_per_sample (format clip) <> bitdepth ->
      sample_type (format out)
      = if bitdepth <? 32 then INTEGER else FLOAT).
Proof. apply resampler_ok. Qed.

(** Resampling again to the same depth returns the clip as it is. *)
Theorem resampler_idempotent (clip out : node) (bitdepth : Z) :
  resampler format register_format Point clip bitdepth = Ok out ->
  resampler format register_format Point out bitdepth = Ok out.
Proof.
  intros H. apply resampler_ok in H. destruct H as [Hbits _].
  unfold resampler. rewrite Hbits, Z.eqb_refl. reflexivity.
Qed.

(** Whatever the filter does to the depth, and whichever of the two
    attempts succeeds, the clip [quick_resample] returns has the bit
    depth of the input. *)
Theorem quick_resample_depth (clip out : node)
  (function : node -> outcome node) :
  quick_resample format register_format Point clip function = Ok out ->
  bits_per_sample (format out) = bits_per_sample (format clip).
Proof.
  unfold quick_resample.
  destruct (match (down <- resampler format register_format Point clip 16 ;;
                   function down) with
            | Ok filtered => Ok filtered
            | Err _ =>
                down <- resampler format register_format Point clip 8 ;;
                function down
            end) as [filtered |]; simpl; [| discriminate].
  intros H. apply resampler_ok in H. apply H.
Qed.

(** [fix_cr_tint] hands a 16-bit clip to [std.Expr]: the input itself
    when it is 16-bit, what [resampler] returns for 16 bits otherwise. *)
Theorem fix_cr_tint_sixteen_bit (clip out : node) (value : Z) :
  fix_cr_tint format register_format Point Expr clip value = Ok out ->
  exists clip16 : node,
    bits_per_sample (format clip16) = 16
    /\ Expr clip16 (x_plus value) = Ok out
    /\ (bits_per_sample (format clip) = 16 -> clip16 = clip)
    /\ (bits_per_sample (format clip) <> 16 ->
        resampler format register_format Point clip 16 = Ok clip16).
Proof.
  unfold fix_cr_tint, get_depth.
  destruct (Z.eqb_spec (bits_per_sample (format clip)) 16) as [E | E];
    simpl.
  - intros H. exists clip. repeat split; auto. intros H16. contradiction.
  - destruct (resampler format register_format Point clip 16)
      as [clip16 |] eqn:Hres; simpl; [| discriminate].
    intros H. exists clip16. pose proof (resampler_ok _ _ Hres) as Hfmt.
    split; [apply Hfmt |]. split; [exact H |].
    split; [intros H16; contradiction | intros _; reflexivity].
Qed.

End ResampleProperties.

Lemma register_any_fields :
  forall cf st bits sw sh form,
    register_any cf st bits sw sh = Ok form ->
    form = {| color_family := cf; sample_type := st; bits_per_sample := bits;
              subsampling_w := sw; subsampling_h := sh |}.
Proof. intros cf st bits sw sh form [= <-]. reflexivity. Qed.

Lemma point_any_format :
  forall (clip form : video_format) (dither : dither_type_t)
         (out : video_format),
    point_any clip form dither = Ok out -> (fun c => c) out = form.
Proof. intros clip form dither out [= <-]. reflexivity. Qed.

Lemma resampler_format_witness :
  exists out : video_format,
    resampler (fun c => c) register_any point_any yuv420p8 32 = Ok out
    /\ bits_per_sample out = 32
    /\ sample_type out = FLOAT.
Proof.
  eexists. split; [reflexivity |].
  destruct (@resampler_format video_format (fun c => c) register_any
              point_any register_any_fields point_any_format
              yuv420p8 _ 32 eq_refl) as (Hbits & _ & _ & _ & Hst).
  split; [exact Hbits |]. apply Hst. discriminate.
Defined.

Lemma resampler_idempotent_witness :
  exists out : video_format,
    resampler (fun c => c) register_any point_any yuv420p8 16 = Ok out
    /\ resampler (fun c => c) register_any point_any out 16 = Ok out.
Proof.
  eexists. split; [reflexivity |].
  apply (@resampler_idempotent video_format (fun c => c) register_any
           point_any register_any_fields point_any_format yuv420p8).
  reflexivity.
Defined.

Lemma quick_resample_depth_witness :
  exists out : video_format,
    quick_resample (fun c => c) register_any point_any yuv420p8
      (fun down => if bits_per_sample down =? 16 then Err EngineError
                   else Ok down)
    = Ok out
    /\ bits_per_sample out = bits_per_sample yuv420p8.
Proof.
  eexists. split; [reflexivity |].
  apply (@quick_resample_depth video_format (fun c => c) register_any
           point_any register_any_fields point_any_format yuv420p8 _
           (fun down => if bits_per_sample down =? 16 then Err EngineError
                        else Ok down)).
  reflexivity.
Defined.

Lemma fix_cr_tint_sixteen_bit_witness :
  exists clip16 : video_format,
    bits_per_sample clip16 = 16
    /\ (fun (c : video_format) (_ : expr) => Ok c) clip16 (x_plus 128)
       = Ok {| color_family := 3000000; sample_type := INTEGER;
               bits_per_sample := 16; subsampling_w := 1;
               subsampling_h := 1 |}
    /\ (bits_per_sample yuv420p8 = 16 -> clip16 = yuv420p8)
    /\ (bits_per_sample yuv420p8 <> 16 ->
        resampler (fun c => c) register_any point_any yuv420p8 16
        = Ok clip16).
Proof.
  apply (@fix_cr_tint_sixteen_bit video_format (fun c => c) register_any
           point_any (fun c _ => Ok c) register_any_fields point_any_format
           yuv420p8 _ 128).
  reflexivity.
Defined.
